(** * Elevator-LLD: the request store, the LOOK scheduler and the dispatch
    router of [main.py], embedded in Rocq.

    Python integers are unbounded, so floors and car ids are [Z].  The
    callers' [Dict[int, _]] objects are finite maps ([gmap Z _]), the
    [set] built at the top of a processing cycle is a [gset Z] that is
    iterated in whatever order [elements] yields (as Python iterates a
    set in an order of its own), and what the program prints is kept as
    a list of structured events instead of formatted strings. *)

From Stdlib Require Import ZArith Lia Sorted.
From stdpp Require Import base option list sorting sets gmap.

Local Open Scope Z_scope.

(** ** Enums *)

Module Direction.
Inductive t := UP | DOWN | IDLE.

#[global] Instance eq_dec : EqDecision t.
Proof. solve_decision. Defined.
End Direction.

Module Status.
Inductive t := MOVING | STOPPED | IDLE.

#[global] Instance eq_dec : EqDecision t.
Proof. solve_decision. Defined.
End Status.

(** ** Output

    Every [print] of the program is one event; [Arrived] records the
    call [self.notify()] of [move_to_floor] together with the floor and
    direction the car holds when it is made (the observers print only
    their own fields, which nothing in the program ever updates). *)

Inductive Event :=
| Traversed (elevator_id : option Z) (f : Z)
    (* Display.show_movement: "<prefix> at floor <f>" *)
| Arrived (id : Z) (floor : Z) (direction : Direction.t)
    (* ElevatorCar.move_to_floor reaches self.notify() *)
| DisplayUpdated (elevator_id : option Z) (floor : Z) (direction : Direction.t)
    (* Display.update: "<prefix> - Floor: <floor>, Direction: <name>" *)
| LoggerUpdated (elevator_id : option Z).
    (* Logger.update: "<prefix> updated" *)

(** The floors at which the car stops, in the order of the stops. *)
Definition visits (tr : list Event) : list Z :=
  omap (fun ev => match ev with Arrived _ f _ => Some f | _ => None end) tr.

(** The floors reported while the car travels, in the order reported. *)
Definition traversals (tr : list Event) : list Z :=
  omap (fun ev => match ev with Traversed _ f => Some f | _ => None end) tr.

(** ** Python built-ins used by the program *)

(** [range(start, stop, step)] with CPython's length formula; [step = 0]
    raises [ValueError] there and yields no element here (the program
    only passes [1] and [-1]). *)
Definition range_len (start stop step : Z) : nat :=
  if 0 <? step then
    if start <? stop then Z.to_nat ((stop - start - 1) / step + 1) else O
  else if step <? 0 then
    if stop <? start then Z.to_nat ((start - stop - 1) / (- step) + 1) else O
  else O.

Definition range (start stop step : Z) : list Z :=
  map (fun i : nat => start + Z.of_nat i * step) (seq 0 (range_len start stop step)).

(** [heapq] is Python's library, not this repository's: a heap is
    modelled by what [heappush] and [heappop] guarantee, the items kept
    in ascending order so that [heappop] takes the smallest off the
    front. *)
Fixpoint heappush (heap : list Z) (item : Z) : list Z :=
  match heap with
  | [] => [item]
  | x :: heap' => if item <=? x then item :: heap else x :: heappush heap' item
  end.

Definition heappop (heap : list Z) : option (Z * list Z) :=
  match heap with
  | [] => None (* IndexError *)
  | x :: heap' => Some (x, heap')
  end.

(** ** Observers *)

Module Display.
Record t := mk {
  elevator_id : option Z;
  current_floor : Z;
  direction : Direction.t
}.

Definition init (elevator_id : option Z) : t :=
  mk elevator_id 0 Direction.IDLE.

Definition update (self : t) : list Event :=
  [DisplayUpdated (elevator_id self) (current_floor self) (direction self)].

Definition show_movement (self : t) (current target : Z) : list Event :=
  let step := if target >? current then 1 else -1 in
  map (Traversed (elevator_id self)) (range (current + step) (target + step) step).
End Display.

Module Logger.
Record t := mk { elevator_id : option Z }.

Definition init (elevator_id : option Z) : t := mk elevator_id.

Definition update (self : t) : list Event := [LoggerUpdated (elevator_id self)].
End Logger.

(** The two implementations of [ElevatorObserver]. *)
Inductive ElevatorObserver :=
| DisplayObserver (d : Display.t)
| LoggerObserver (l : Logger.t).

Definition ElevatorObserver_update (o : ElevatorObserver) : list Event :=
  match o with
  | DisplayObserver d => Display.update d
  | LoggerObserver l => Logger.update l
  end.

(** The only implementation of [MovementStrategy]. *)
Inductive MovementStrategy := LookAlgorithm.

(** ** The car and its request store *)

Module ElevatorCar.
Record t := mk {
  id : Z;
  current_floor : Z;
  status : Status.t;
  direction : Direction.t;
  internal_requests : list Z;
  external_requests : gmap Z Direction.t;
  display : Display.t;
  logger : Logger.t;
  strategy : MovementStrategy;
  observers : list ElevatorObserver
}.

(** [__init__]: the display and the logger are attached, in that order. *)
Definition init (id : Z) (strategy : option MovementStrategy) : t :=
  let display := Display.init (Some id) in
  let logger := Logger.init (Some id) in
  mk id 0 Status.IDLE Direction.IDLE [] ∅ display logger
     (default LookAlgorithm strategy)
     [DisplayObserver display; LoggerObserver logger].

Definition set_internal_requests (self : t) (l : list Z) : t :=
  mk (id self) (current_floor self) (status self) (direction self)
     l (external_requests self)
     (display self) (logger self) (strategy self) (observers self).

Definition set_external_requests (self : t) (m : gmap Z Direction.t) : t :=
  mk (id self) (current_floor self) (status self) (direction self)
     (internal_requests self) m
     (display self) (logger self) (strategy self) (observers self).

Definition attach (self : t) (observer : ElevatorObserver) : t :=
  mk (id self) (current_floor self) (status self) (direction self)
     (internal_requests self) (external_requests self)
     (display self) (logger self) (strategy self) (observers self ++ [observer]).

Definition notify (self : t) : list Event :=
  Arrived (id self) (current_floor self) (direction self)
  :: concat (map ElevatorObserver_update (observers self)).

Definition press_internal_button (self : t) (floor : Z) : t :=
  if bool_decide (floor ∈ internal_requests self) then self
  else set_internal_requests self (internal_requests self ++ [floor]).

Definition add_external_request (self : t) (floor : Z) (direction : Direction.t) : t :=
  match external_requests self !! floor with
  | None => set_external_requests self (<[floor := direction]> (external_requests self))
  | Some _ => self
  end.

Definition move_to_floor (self : t) (floor : Z) : t * list Event :=
  let shown := Display.show_movement (display self) (current_floor self) floor in
  let direction' :=
    if floor >? current_floor self then Direction.UP
    else if floor <? current_floor self then Direction.DOWN
    else Direction.IDLE in
  let self' :=
    mk (id self) floor Status.STOPPED direction'
       (internal_requests self) (external_requests self)
       (display self) (logger self) (strategy self) (observers self) in
  (self', shown ++ notify self').
End ElevatorCar.

(** ** The LOOK scheduler *)

Module Look.
Import ElevatorCar.

(** [set(elevator.internal_requests + list(elevator.external_requests.keys()))] *)
Definition requests (elevator : ElevatorCar.t) : gset Z :=
  list_to_set (internal_requests elevator
               ++ (map_to_list (external_requests elevator)).*1).

(** The loop variables of the classification loop. *)
Record Sorting := mkSorting {
  car : ElevatorCar.t;
  up_heap : list Z;
  down_heap : list Z;
  printed : list Event
}.

(** One iteration of [for floor in requests]. *)
Definition classify (st : Sorting) (floor : Z) : Sorting :=
  let elevator := car st in
  if floor >? current_floor elevator then
    mkSorting elevator (heappush (up_heap st) floor) (down_heap st) (printed st)
  else if floor <? current_floor elevator then
    mkSorting elevator (up_heap st) (heappush (down_heap st) (- floor)) (printed st)
  else
    let (elevator', tr) := move_to_floor elevator floor in
    mkSorting elevator' (up_heap st) (down_heap st) (printed st ++ tr).

(** [while up_heap: next_floor = heapq.heappop(up_heap); ...]: the
    pattern match is [heappop]; the heap left over is returned with the
    car, since the next test of the cycle reads it. *)
Fixpoint while_up_heap (up_heap : list Z) (elevator : ElevatorCar.t)
  : ElevatorCar.t * list Z * list Event :=
  match up_heap with
  | [] => (elevator, up_heap, [])
  | next_floor :: up_heap' =>
      let (elevator1, tr1) := move_to_floor elevator next_floor in
      let '(elevator2, left_over, tr2) := while_up_heap up_heap' elevator1 in
      (elevator2, left_over, tr1 ++ tr2)
  end.

(** [while down_heap: next_floor = -heapq.heappop(down_heap); ...] *)
Fixpoint while_down_heap (down_heap : list Z) (elevator : ElevatorCar.t)
  : ElevatorCar.t * list Event :=
  match down_heap with
  | [] => (elevator, [])
  | item :: down_heap' =>
      let next_floor := - item in
      let (elevator1, tr1) := move_to_floor elevator next_floor in
      let (elevator2, tr2) := while_down_heap down_heap' elevator1 in
      (elevator2, tr1 ++ tr2)
  end.

Definition direction_in (d : Direction.t) (l : list Direction.t) : bool :=
  bool_decide (d ∈ l).

Definition is_empty (heap : list Z) : bool :=
  match heap with [] => true | _ => false end.

(** [process_requests] from its second statement on, the [for] loop
    meeting the floors of [requests] in the order of [pending]. *)
Definition process_floors (pending : list Z) (elevator : ElevatorCar.t)
  : ElevatorCar.t * list Event :=
  let st := fold_left classify pending (mkSorting elevator [] [] []) in
  let elevator1 := car st in
  let '(elevator2, up_left, tr_up) :=
    if direction_in (direction elevator1) [Direction.IDLE; Direction.UP]
    then while_up_heap (up_heap st) elevator1
    else (elevator1, up_heap st, []) in
  let '(elevator3, tr_down) :=
    if direction_in (direction elevator2) [Direction.IDLE; Direction.DOWN]
       || is_empty up_left
    then while_down_heap (down_heap st) elevator2
    else (elevator2, []) in
  (mk (id elevator3) (current_floor elevator3) Status.IDLE Direction.IDLE
      [] ∅
      (display elevator3) (logger elevator3) (strategy elevator3)
      (observers elevator3),
   printed st ++ tr_up ++ tr_down).

Definition process_requests (elevator : ElevatorCar.t) : ElevatorCar.t * list Event :=
  process_floors (elements (requests elevator)) elevator.
End Look.

(** [ElevatorCar.process_requests]: hand the car to its strategy. *)
Definition process_requests (self : ElevatorCar.t) : ElevatorCar.t * list Event :=
  match ElevatorCar.strategy self with
  | LookAlgorithm => Look.process_requests self
  end.

(** ** Dispatch *)

(** The three implementations of [ExternalButtonDispatcherStrategy].  Each
    holds a reference to the controller's dictionary of cars, which is
    therefore passed to [assign_elevator] and returned updated (the cars
    under different ids are different objects, as [Building] makes them);
    [self.elevators[k]] raises [KeyError] on a missing key, which is
    [None] here. *)
Inductive ExternalButtonDispatcherStrategy :=
| OddDispatcher
| EvenDispatcher
| FixedDispatcher (fixed_floors : list Z).

Definition contains (elevators : gmap Z ElevatorCar.t) (k : Z) : bool :=
  bool_decide (is_Some (elevators !! k)).

(** [self.elevators[k].add_external_request(floor, direction)] *)
Definition enqueue (elevators : gmap Z ElevatorCar.t) (k floor : Z)
    (direction : Direction.t) : option (gmap Z ElevatorCar.t) :=
  elevator ← elevators !! k;
  Some (<[k := ElevatorCar.add_external_request elevator floor direction]> elevators).

Definition assign_elevator (self : ExternalButtonDispatcherStrategy)
    (elevators : gmap Z ElevatorCar.t) (floor : Z) (direction : Direction.t)
  : option (gmap Z ElevatorCar.t) :=
  match self with
  | OddDispatcher =>
      if (floor mod 2 =? 1) && contains elevators 0
      then enqueue elevators 0 floor direction else Some elevators
  | EvenDispatcher =>
      if (floor mod 2 =? 0) && contains elevators 1
      then enqueue elevators 1 floor direction else Some elevators
  | FixedDispatcher fixed_floors =>
      if bool_decide (floor ∈ fixed_floors) && contains elevators 2
      then enqueue elevators 2 floor direction else Some elevators
  end.

Module ElevatorController.
Record t := mk {
  elevators : gmap Z ElevatorCar.t;
  strategies : list ExternalButtonDispatcherStrategy
}.

Definition init (elevators : gmap Z ElevatorCar.t) (fixed_floors : list Z) : t :=
  mk elevators [OddDispatcher; EvenDispatcher; FixedDispatcher fixed_floors].

(** [for strategy in self.strategies: strategy.assign_elevator(...)] *)
Fixpoint for_strategies (strategies : list ExternalButtonDispatcherStrategy)
    (elevators : gmap Z ElevatorCar.t) (floor : Z) (direction : Direction.t)
  : option (gmap Z ElevatorCar.t) :=
  match strategies with
  | [] => Some elevators
  | strategy :: rest =>
      elevators' ← assign_elevator strategy elevators floor direction;
      for_strategies rest elevators' floor direction
  end.

Definition handle_external_request (self : t) (floor : Z) (direction : Direction.t)
  : option t :=
  elevators' ← for_strategies (strategies self) (elevators self) floor direction;
  Some (mk elevators' (strategies self)).
End ElevatorController.

(** ** Floors *)

Module ExternalButton.
Record t := mk {
  floor : Z;
  direction : Direction.t;
  pressed : bool
}.

Definition init (floor : Z) (direction : Direction.t) : t := mk floor direction false.

(** [self.pressed = True] *)
Definition press (self : t) : t := mk (floor self) (direction self) true.
End ExternalButton.

Module Floor.
(** The floor's reference to the controller is to the one controller of
    the building, which is therefore passed in and returned. *)
Record t := mk {
  number : Z;
  up_button : ExternalButton.t;
  down_button : ExternalButton.t;
  display : Display.t
}.

Definition init (number : Z) : t :=
  mk number (ExternalButton.init number Direction.UP)
     (ExternalButton.init number Direction.DOWN) (Display.init None).

Definition press_external_button (self : t) (controller : ElevatorController.t)
    (direction : Direction.t) : option (t * ElevatorController.t) :=
  let self' :=
    match direction with
    | Direction.UP =>
        mk (number self) (ExternalButton.press (up_button self))
           (down_button self) (display self)
    | Direction.DOWN =>
        mk (number self) (up_button self)
           (ExternalButton.press (down_button self)) (display self)
    | Direction.IDLE => self
    end in
  controller' ← ElevatorController.handle_external_request controller
                  (number self) direction;
  Some (self', controller').
End Floor.

(** ** Building *)

Module Building.
(** [{i: ElevatorCar(i) for i in range(num_elevators)}] *)
Definition make_elevators (num_elevators : Z) : gmap Z ElevatorCar.t :=
  list_to_map (map (fun i => (i, ElevatorCar.init i None)) (range 0 num_elevators 1)).

(** The controller of [Building(num_floors, num_elevators, fixed_floors)];
    the building's own [elevators] is the controller's dictionary. *)
Definition controller (num_elevators : Z) (fixed_floors : list Z) : ElevatorController.t :=
  ElevatorController.init (make_elevators num_elevators) fixed_floors.

(** The building.  [self.elevators] and the controller's dictionary are
    one object, kept in [dispatch]; a Python dictionary is iterated in
    the order its keys were inserted, which a [gmap] does not record, so
    [ids] holds the keys in that order. *)
Record t := mk {
  ids : list Z;
  dispatch : ElevatorController.t;
  floors : list Floor.t
}.

Definition elevators (self : t) : gmap Z ElevatorCar.t :=
  ElevatorController.elevators (dispatch self).

Definition init (num_floors num_elevators : Z) (fixed_floors : list Z) : t :=
  mk (range 0 num_elevators 1)
     (controller num_elevators fixed_floors)
     (map Floor.init (range 0 num_floors 1)).

(** [for elevator in self.elevators.values(): elevator.process_requests()] *)
Fixpoint for_elevators (ids : list Z) (elevators : gmap Z ElevatorCar.t)
  : gmap Z ElevatorCar.t * list Event :=
  match ids with
  | [] => (elevators, [])
  | k :: ids' =>
      match elevators !! k with
      | Some elevator =>
          let (elevator', tr) := process_requests elevator in
          let (elevators', tr') := for_elevators ids' (<[k := elevator']> elevators) in
          (elevators', tr ++ tr')
      | None => for_elevators ids' elevators
      end
  end.

Definition process_all_requests (self : t) : t * list Event :=
  let (elevators', tr) := for_elevators (ids self) (elevators self) in
  (mk (ids self)
      (ElevatorController.mk elevators' (ElevatorController.strategies (dispatch self)))
      (floors self),
   tr).

(** [building.floors[i].press_external_button(direction)], as the usage
    block calls it, for an index counted from the front; an index past
    the end raises [IndexError]. *)
Definition press_external_button (self : t) (i : nat) (direction : Direction.t)
  : option t :=
  floor ← floors self !! i;
  '(floor', controller') ← Floor.press_external_button floor (dispatch self) direction;
  Some (mk (ids self) controller' (<[i := floor']> (floors self))).

(** [building.elevators[k].press_internal_button(floor)] *)
Definition press_internal_button (self : t) (k floor : Z) : option t :=
  elevator ← elevators self !! k;
  Some (mk (ids self)
           (ElevatorController.mk
              (<[k := ElevatorCar.press_internal_button elevator floor]> (elevators self))
              (ElevatorController.strategies (dispatch self)))
           (floors self)).
End Building.

(** ** Vocabulary of the statements *)

(** Stopping at each floor of a list in turn. *)
Fixpoint run_moves (floors : list Z) (elevator : ElevatorCar.t)
  : ElevatorCar.t * list Event :=
  match floors with
  | [] => (elevator, [])
  | floor :: floors' =>
      let (elevator1, tr1) := ElevatorCar.move_to_floor elevator floor in
      let (elevator2, tr2) := run_moves floors' elevator1 in
      (elevator2, tr1 ++ tr2)
  end.

(** The last four assignments of a processing cycle. *)
Definition finish (e : ElevatorCar.t) : ElevatorCar.t :=
  ElevatorCar.mk (ElevatorCar.id e) (ElevatorCar.current_floor e)
    Status.IDLE Direction.IDLE [] ∅
    (ElevatorCar.display e) (ElevatorCar.logger e)
    (ElevatorCar.strategy e) (ElevatorCar.observers e).

(** The car with every pending request for [floor] taken out of its store. *)
Definition without_floor (e : ElevatorCar.t) (floor : Z) : ElevatorCar.t :=
  ElevatorCar.set_external_requests
    (ElevatorCar.set_internal_requests e
       (filter (λ f, f ≠ floor) (ElevatorCar.internal_requests e)))
    (delete floor (ElevatorCar.external_requests e)).

(** Two cars that differ at most in status, direction and request store. *)
Definition same_cabin (e1 e2 : ElevatorCar.t) : Prop :=
  ElevatorCar.id e1 = ElevatorCar.id e2
  ∧ ElevatorCar.current_floor e1 = ElevatorCar.current_floor e2
  ∧ ElevatorCar.display e1 = ElevatorCar.display e2
  ∧ ElevatorCar.logger e1 = ElevatorCar.logger e2
  ∧ ElevatorCar.strategy e1 = ElevatorCar.strategy e2
  ∧ ElevatorCar.observers e1 = ElevatorCar.observers e2.

(** The heaps the classification loop builds from a pending list. *)
Definition heap_above (F : Z) (pending : list Z) : list Z :=
  fold_left heappush (filter (λ f, F < f) pending) [].

Definition heap_below (F : Z) (pending : list Z) : list Z :=
  fold_left heappush (Z.opp <$> filter (λ f, f < F) pending) [].

(** The stops of a cycle, read off the three phases of [process_requests]. *)
Definition plan_of (pending : list Z) (e : ElevatorCar.t) : list Z :=
  let F := ElevatorCar.current_floor e in
  (if decide (F ∈ pending) then [F] else [])
  ++ (if decide (ElevatorCar.direction e = Direction.DOWN ∧ F ∉ pending)
      then [] else heap_above F pending)
  ++ (Z.opp <$> heap_below F pending).

Definition plan (e : ElevatorCar.t) : list Z :=
  plan_of (elements (Look.requests e)) e.

(** The car a policy routes to, and the floors it routes. *)
Definition target (s : ExternalButtonDispatcherStrategy) : Z :=
  match s with
  | OddDispatcher => 0
  | EvenDispatcher => 1
  | FixedDispatcher _ => 2
  end.

Definition eligible (s : ExternalButtonDispatcherStrategy) (floor : Z) : Prop :=
  match s with
  | OddDispatcher => floor mod 2 = 1
  | EvenDispatcher => floor mod 2 = 0
  | FixedDispatcher fixed_floors => floor ∈ fixed_floors
  end.

#[global] Instance eligible_dec s floor : Decision (eligible s floor).
Proof. destruct s; simpl; apply _. Defined.

(** The request store holds no cabin floor twice. *)
Definition store_ok (e : ElevatorCar.t) : Prop :=
  NoDup (ElevatorCar.internal_requests e).

(** Cars as the public methods leave them, for the examples: a car that
    has travelled up to a floor, one that has come down to a floor, and
    one left at a floor by a finished cycle. *)
Definition gone_up_to (F : Z) : ElevatorCar.t :=
  (ElevatorCar.move_to_floor (ElevatorCar.init 0 None) F).1.

Definition come_down_to (top F : Z) : ElevatorCar.t :=
  (ElevatorCar.move_to_floor (gone_up_to top) F).1.

Definition rested_at (F : Z) : ElevatorCar.t :=
  (process_requests
     (ElevatorCar.press_internal_button (ElevatorCar.init 0 None) F)).1.

Definition press_all (e : ElevatorCar.t) (floors : list Z) : ElevatorCar.t :=
  fold_left ElevatorCar.press_internal_button floors e.

(** Cars as the public methods make them from a new car. *)
Inductive built : ElevatorCar.t → Prop :=
| built_init (i : Z) (s : option MovementStrategy) : built (ElevatorCar.init i s)
| built_press (e : ElevatorCar.t) (f : Z) :
    built e → built (ElevatorCar.press_internal_button e f)
| built_add (e : ElevatorCar.t) (f : Z) (d : Direction.t) :
    built e → built (ElevatorCar.add_external_request e f d)
| built_move (e : ElevatorCar.t) (f : Z) :
    built e → built (ElevatorCar.move_to_floor e f).1
| built_cycle (e : ElevatorCar.t) :
    built e → built (process_requests e).1.

(** What one policy does to the dictionary of cars. *)
Definition routed (s : ExternalButtonDispatcherStrategy) (f : Z) (d : Direction.t)
    (m : gmap Z ElevatorCar.t) : gmap Z ElevatorCar.t :=
  if decide (eligible s f)
  then alter (λ c, ElevatorCar.add_external_request c f d) (target s) m
  else m.

(** The building of the usage block, with its three hall calls and its
    three cabin requests made ([None] would be a failed call). *)
Definition usage_building : option Building.t :=
  b ← Building.press_external_button (Building.init 10 3 [0; 5; 9]) 3 Direction.UP;
  b ← Building.press_external_button b 4 Direction.UP;
  b ← Building.press_external_button b 5 Direction.DOWN;
  b ← Building.press_internal_button b 0 7;
  b ← Building.press_internal_button b 1 8;
  Building.press_internal_button b 2 9.

(** The dictionary of a building and its recorded key order agree. *)
Definition ids_ok (b : Building.t) : Prop :=
  NoDup (Building.ids b)
  ∧ ∀ k : Z, k ∈ Building.ids b ↔ is_Some (Building.elevators b !! k).

(** The output of the cars of a map, one cycle each, in the order of [ids]. *)
Definition cycle_outputs (ids : list Z) (m : gmap Z ElevatorCar.t) : list Event :=
  concat (map (λ k, from_option (λ c, (process_requests c).2) [] (m !! k)) ids).

(** * Properties *)

(** Membership in explicit finite sets and lists of floors. *)
Ltac floors :=
  unfold not;
  rewrite ?elem_of_union, ?elem_of_singleton, ?elem_of_cons, ?elem_of_nil;
  lia.

(** ** [range] with the two steps the display uses *)

Section RangeFacts.

Lemma affine_seq_sorted (R : relation Z) (g : nat → Z) :
  (∀ i j : nat, (i < j)%nat → R (g i) (g j)) →
  ∀ n s, StronglySorted R (map g (seq s n)).
Proof.
  intros Hg n. induction n as [|n IH]; intros s; simpl.
  - constructor.
  - constructor; [apply IH|].
    apply Forall_forall. intros y Hy.
    apply list_elem_of_fmap in Hy as (j & -> & Hj).
    apply elem_of_seq in Hj. apply Hg. lia.
Qed.

Lemma range_len_up (start stop : Z) :
  range_len start stop 1 = Z.to_nat (stop - start).
Proof.
  unfold range_len. simpl.
  destruct (Z.ltb_spec start stop); [|lia].
  rewrite Z.div_1_r. lia.
Qed.

Lemma range_len_down (start stop : Z) :
  range_len start stop (-1) = Z.to_nat (start - stop).
Proof.
  unfold range_len. simpl.
  destruct (Z.ltb_spec stop start); [|lia].
  rewrite Z.div_1_r. lia.
Qed.

Lemma elem_of_range_up (f start stop : Z) :
  f ∈ range start stop 1 ↔ start ≤ f < stop.
Proof.
  unfold range. rewrite range_len_up. split.
  - intros Hf. apply list_elem_of_fmap in Hf as (i & -> & Hi).
    apply elem_of_seq in Hi. lia.
  - intros Hf. apply list_elem_of_fmap.
    exists (Z.to_nat (f - start)). split; [lia|].
    apply elem_of_seq. lia.
Qed.

Lemma elem_of_range_down (f start stop : Z) :
  f ∈ range start stop (-1) ↔ stop < f ≤ start.
Proof.
  unfold range. rewrite range_len_down. split.
  - intros Hf. apply list_elem_of_fmap in Hf as (i & -> & Hi).
    apply elem_of_seq in Hi. lia.
  - intros Hf. apply list_elem_of_fmap.
    exists (Z.to_nat (start - f)). split; [lia|].
    apply elem_of_seq. lia.
Qed.

Lemma range_up_sorted (start stop : Z) :
  StronglySorted Z.lt (range start stop 1).
Proof. apply affine_seq_sorted. intros i j Hij. lia. Qed.

Lemma range_down_sorted (start stop : Z) :
  StronglySorted Z.gt (range start stop (-1)).
Proof. apply affine_seq_sorted. intros i j Hij. lia. Qed.

Lemma range_empty (start : Z) (step : Z) : range start start step = [].
Proof.
  unfold range, range_len.
  rewrite Z.ltb_irrefl. by destruct (0 <? step), (step <? 0).
Qed.

End RangeFacts.

(** ** Heaps *)

Section HeapFacts.

Lemma elem_of_heappush (heap : list Z) (item x : Z) :
  x ∈ heappush heap item ↔ x = item ∨ x ∈ heap.
Proof.
  induction heap as [|y heap IH]; simpl.
  - rewrite list_elem_of_singleton, elem_of_nil. tauto.
  - destruct (item <=? y); rewrite !elem_of_cons; [done|].
    rewrite IH. tauto.
Qed.

Lemma heappush_sorted (heap : list Z) (item : Z) :
  StronglySorted Z.lt heap → item ∉ heap →
  StronglySorted Z.lt (heappush heap item).
Proof.
  induction heap as [|y heap IH]; simpl; intros Hs Hni.
  - repeat constructor.
  - apply StronglySorted_inv in Hs as [Hs Hy].
    apply not_elem_of_cons in Hni as [Hne Hni].
    destruct (Z.leb_spec item y).
    + constructor; [by constructor|].
      constructor; [lia|].
      eapply Forall_impl; [exact Hy|]. simpl. intros; lia.
    + constructor; [by apply IH|].
      apply Forall_forall. intros x Hx.
      apply elem_of_heappush in Hx as [->|Hx]; [lia|].
      by eapply Forall_forall in Hy.
Qed.

(** Pushing a duplicate-free batch of fresh items one by one. *)
Lemma elem_of_pushes (items heap : list Z) (x : Z) :
  x ∈ fold_left heappush items heap ↔ x ∈ items ∨ x ∈ heap.
Proof.
  revert heap. induction items as [|i items IH]; intros heap; simpl.
  - rewrite elem_of_nil. tauto.
  - rewrite IH, elem_of_heappush, elem_of_cons. tauto.
Qed.

Lemma pushes_sorted (items heap : list Z) :
  NoDup items → (∀ x, x ∈ items → x ∉ heap) →
  StronglySorted Z.lt heap →
  StronglySorted Z.lt (fold_left heappush items heap).
Proof.
  revert heap. induction items as [|i items IH]; intros heap Hnd Hfresh Hs; simpl.
  - done.
  - apply NoDup_cons in Hnd as [Hi Hnd].
    apply IH; [done| |].
    + intros x Hx Hin. apply elem_of_heappush in Hin as [->|Hin]; [done|].
      eapply Hfresh; [|exact Hin]. by right.
    + apply heappush_sorted; [done|]. apply Hfresh. by left.
Qed.

Lemma lt_sorted_NoDup (l : list Z) : StronglySorted Z.lt l → NoDup l.
Proof.
  induction 1 as [|x l Hs IH Hx]; constructor; [|done].
  intros Hin. eapply Forall_forall in Hx; [|exact Hin]. lia.
Qed.

(** A strictly ascending list is determined by its elements. *)
Lemma lt_sorted_unique (l1 l2 : list Z) :
  StronglySorted Z.lt l1 → StronglySorted Z.lt l2 →
  (∀ x, x ∈ l1 ↔ x ∈ l2) → l1 = l2.
Proof.
  intros H1 H2 Heq.
  apply (StronglySorted_unique_strong Z.lt); [intros; lia|done|done|].
  apply NoDup_Permutation; auto using lt_sorted_NoDup.
Qed.

Lemma opp_sorted (l : list Z) :
  StronglySorted Z.lt l → StronglySorted Z.gt (map Z.opp l).
Proof. apply StronglySorted_fmap. intros; lia. Qed.

End HeapFacts.

(** ** Moving *)

Section MoveFacts.
Import ElevatorCar.

Lemma visits_app (t1 t2 : list Event) : visits (t1 ++ t2) = visits t1 ++ visits t2.
Proof. apply omap_app. Qed.

Lemma traversals_app (t1 t2 : list Event) :
  traversals (t1 ++ t2) = traversals t1 ++ traversals t2.
Proof. apply omap_app. Qed.

Lemma show_movement_here (d : Display.t) (F : Z) : Display.show_movement d F F = [].
Proof.
  unfold Display.show_movement.
  rewrite Z.gtb_ltb, Z.ltb_irrefl. by rewrite range_empty.
Qed.

Lemma visits_show_movement (d : Display.t) (p q : Z) :
  visits (Display.show_movement d p q) = [].
Proof.
  unfold Display.show_movement.
  induction (range _ _ _) as [|x l IH]; [done|exact IH].
Qed.

Lemma traversals_show_movement (d : Display.t) (p q : Z) :
  traversals (Display.show_movement d p q)
  = range (p + (if q >? p then 1 else -1)) (q + (if q >? p then 1 else -1))
          (if q >? p then 1 else -1).
Proof.
  unfold Display.show_movement.
  induction (range _ _ _) as [|x l IH]; [done|]. simpl. by f_equal.
Qed.

Lemma visits_updates (os : list ElevatorObserver) :
  visits (concat (map ElevatorObserver_update os)) = [].
Proof. induction os as [|[d|l] os IH]; [done|exact IH|exact IH]. Qed.

Lemma traversals_updates (os : list ElevatorObserver) :
  traversals (concat (map ElevatorObserver_update os)) = [].
Proof. induction os as [|[d|l] os IH]; [done|exact IH|exact IH]. Qed.

Lemma visits_notify (e : t) : visits (notify e) = [current_floor e].
Proof. unfold notify. simpl. by rewrite visits_updates. Qed.

Lemma traversals_notify (e : t) : traversals (notify e) = [].
Proof. unfold notify. simpl. by rewrite traversals_updates. Qed.

Lemma visits_move_to_floor (e : t) (f : Z) : visits (move_to_floor e f).2 = [f].
Proof.
  unfold move_to_floor. cbn [snd].
  rewrite visits_app, visits_show_movement. apply visits_notify.
Qed.

Lemma move_to_floor_current (e : t) (f : Z) : current_floor (move_to_floor e f).1 = f.
Proof. done. Qed.

Lemma move_to_floor_here (e : t) :
  (move_to_floor e (current_floor e)).2 = notify (move_to_floor e (current_floor e)).1
  ∧ direction (move_to_floor e (current_floor e)).1 = Direction.IDLE.
Proof.
  unfold move_to_floor. simpl. rewrite show_movement_here. split; [done|].
  by rewrite Z.gtb_ltb, !Z.ltb_irrefl.
Qed.

Lemma same_cabin_move (e1 e2 : t) (f : Z) :
  same_cabin e1 e2 →
  (move_to_floor e1 f).2 = (move_to_floor e2 f).2
  ∧ same_cabin (move_to_floor e1 f).1 (move_to_floor e2 f).1.
Proof.
  intros (Hid & Hfl & Hd & Hl & Hs & Ho).
  unfold move_to_floor, notify, same_cabin. simpl.
  rewrite Hid, Hfl, Hd, Ho. done.
Qed.

Lemma same_cabin_moved (e : t) (f : Z) :
  current_floor e = f → same_cabin (move_to_floor e f).1 e.
Proof. intros Hf. unfold same_cabin. simpl. by rewrite Hf. Qed.

Lemma same_cabin_finish (e1 e2 : t) : same_cabin e1 e2 → finish e1 = finish e2.
Proof.
  intros (Hid & Hfl & Hd & Hl & Hs & Ho). unfold finish. congruence.
Qed.

Lemma run_moves_cons (f : Z) (l : list Z) (e : t) :
  run_moves (f :: l) e
  = ((run_moves l (move_to_floor e f).1).1,
     (move_to_floor e f).2 ++ (run_moves l (move_to_floor e f).1).2).
Proof.
  cbn [run_moves]. destruct (move_to_floor e f) as [e1 t1]. cbn [fst snd].
  by destruct (run_moves l e1).
Qed.

Lemma run_moves_app (l1 l2 : list Z) (e : t) :
  run_moves (l1 ++ l2) e
  = ((run_moves l2 (run_moves l1 e).1).1,
     (run_moves l1 e).2 ++ (run_moves l2 (run_moves l1 e).1).2).
Proof.
  revert e. induction l1 as [|f l1 IH]; intros e.
  - cbn [app run_moves fst snd]. by destruct (run_moves l2 e).
  - rewrite <- app_comm_cons, !run_moves_cons, IH. cbn [fst snd].
    by rewrite (assoc_L (++)).
Qed.

Lemma visits_run_moves (l : list Z) (e : t) : visits (run_moves l e).2 = l.
Proof.
  revert e. induction l as [|f l IH]; intros e; [done|].
  rewrite run_moves_cons. cbn [snd].
  by rewrite visits_app, visits_move_to_floor, IH.
Qed.

Lemma same_cabin_run_moves (l : list Z) (e1 e2 : t) :
  same_cabin e1 e2 →
  (run_moves l e1).2 = (run_moves l e2).2
  ∧ same_cabin (run_moves l e1).1 (run_moves l e2).1.
Proof.
  revert e1 e2. induction l as [|f l IH]; intros e1 e2 Hsame; [done|].
  rewrite !run_moves_cons. cbn [fst snd].
  destruct (same_cabin_move e1 e2 f Hsame) as [Ht Hs].
  destruct (IH _ _ Hs) as [Ht' Hs'].
  by rewrite Ht, Ht'.
Qed.

(** The loops, one turn at a time, as the source writes them. *)
Lemma while_up_heap_turn (h : list Z) (e : t) :
  Look.while_up_heap h e
  = match heappop h with
    | None => (e, h, [])
    | Some (next_floor, h') =>
        let (e1, tr1) := move_to_floor e next_floor in
        let '(e2, left_over, tr2) := Look.while_up_heap h' e1 in
        (e2, left_over, tr1 ++ tr2)
    end.
Proof. by destruct h. Qed.

Lemma while_down_heap_turn (h : list Z) (e : t) :
  Look.while_down_heap h e
  = match heappop h with
    | None => (e, [])
    | Some (item, h') =>
        let (e1, tr1) := move_to_floor e (- item) in
        let (e2, tr2) := Look.while_down_heap h' e1 in
        (e2, tr1 ++ tr2)
    end.
Proof. by destruct h. Qed.

Lemma while_up_heap_run (h : list Z) (e : t) :
  Look.while_up_heap h e = ((run_moves h e).1, [], (run_moves h e).2).
Proof.
  revert e. induction h as [|f h IH]; intros e; [done|].
  rewrite run_moves_cons. cbn [Look.while_up_heap].
  destruct (move_to_floor e f) as [e1 t1]. by rewrite IH.
Qed.

Lemma while_down_heap_run (h : list Z) (e : t) :
  Look.while_down_heap h e = run_moves (Z.opp <$> h) e.
Proof.
  revert e. induction h as [|f h IH]; intros e; [done|].
  cbn [Look.while_down_heap fmap list_fmap run_moves].
  destruct (move_to_floor e (- f)) as [e1 t1]. by rewrite IH.
Qed.

End MoveFacts.

(** ** The classification loop and the shape of a cycle *)

Section CycleFacts.
Import ElevatorCar.

Lemma elem_of_requests (e : t) (f : Z) :
  f ∈ Look.requests e ↔ f ∈ internal_requests e ∨ is_Some (external_requests e !! f).
Proof.
  unfold Look.requests. rewrite elem_of_list_to_set, elem_of_app.
  apply or_iff_compat_l. rewrite list_elem_of_fmap. split.
  - intros ([k d] & -> & Hkd). apply elem_of_map_to_list in Hkd. by exists d.
  - intros [d Hd]. exists (f, d). split; [done|]. by apply elem_of_map_to_list.
Qed.

Lemma requests_without_floor (e : t) (floor f : Z) :
  f ∈ Look.requests (without_floor e floor) ↔ f ∈ Look.requests e ∧ f ≠ floor.
Proof.
  rewrite !elem_of_requests. unfold without_floor. simpl.
  rewrite list_elem_of_filter, lookup_delete.
  case_decide as Hf.
  - subst. split; [intros [[? _]|[? ?]]; done|tauto].
  - split; [intros [[? ?]|?]; auto|tauto].
Qed.

(** What the loop leaves behind after a duplicate-free pending list. *)
Lemma classify_fold (l : list Z) (st : Look.Sorting) :
  NoDup l →
  let F := current_floor (Look.car st) in
  fold_left Look.classify l st
  = Look.mkSorting
      (if decide (F ∈ l) then (move_to_floor (Look.car st) F).1 else Look.car st)
      (fold_left heappush (filter (λ f, F < f) l) (Look.up_heap st))
      (fold_left heappush (Z.opp <$> filter (λ f, f < F) l) (Look.down_heap st))
      (Look.printed st
       ++ if decide (F ∈ l) then (move_to_floor (Look.car st) F).2 else []).
Proof.
  revert st. induction l as [|f l IH]; intros st Hnd F.
  - cbn [fold_left filter list_filter fmap list_fmap].
    rewrite !decide_False by apply not_elem_of_nil.
    rewrite app_nil_r. by destruct st.
  - apply NoDup_cons in Hnd as [Hf Hnd].
    cbn [fold_left]. rewrite IH by done. clear IH.
    rewrite !filter_cons. unfold Look.classify. fold F.
    destruct (Z.gtb_spec f F) as [Hgt|Hle].
    { cbn [Look.car Look.up_heap Look.down_heap Look.printed]. fold F.
      rewrite (decide_True (P := F < f)) by lia.
      rewrite (decide_False (P := f < F)) by lia.
      destruct (decide (F ∈ l)) as [Hin|Hin], (decide (F ∈ f :: l)) as [Hin'|Hin'];
        try done; exfalso; rewrite elem_of_cons in Hin'; intuition lia. }
    destruct (Z.ltb_spec f F) as [Hlt|Hge].
    { cbn [Look.car Look.up_heap Look.down_heap Look.printed]. fold F.
      rewrite (decide_False (P := F < f)) by lia.
      rewrite (decide_True (P := f < F)) by lia.
      destruct (decide (F ∈ l)) as [Hin|Hin], (decide (F ∈ f :: l)) as [Hin'|Hin'];
        try done; exfalso; rewrite elem_of_cons in Hin'; intuition lia. }
    assert (f = F) as -> by lia.
    rewrite !(decide_False (P := F < F)) by lia.
    pose proof (move_to_floor_current (Look.car st) F) as Hcur.
    destruct (move_to_floor (Look.car st) F) as [e1 t1].
    cbn [fst snd Look.car Look.up_heap Look.down_heap Look.printed] in *.
    rewrite Hcur. destruct (decide (F ∈ l)); [done|].
    destruct (decide (F ∈ F :: l)) as [_|Hn]; [by rewrite app_nil_r|].
    exfalso. apply Hn, elem_of_cons. by left.
Qed.

Lemma elem_of_heap_above (F : Z) (pending : list Z) (x : Z) :
  x ∈ heap_above F pending ↔ x ∈ pending ∧ F < x.
Proof.
  unfold heap_above. rewrite elem_of_pushes, list_elem_of_filter, elem_of_nil. tauto.
Qed.

Lemma heap_above_sorted (F : Z) (pending : list Z) :
  NoDup pending → StronglySorted Z.lt (heap_above F pending).
Proof.
  intros Hnd. apply pushes_sorted; [by apply NoDup_filter| |constructor].
  intros x _. apply not_elem_of_nil.
Qed.

Lemma elem_of_heap_below (F : Z) (pending : list Z) (x : Z) :
  x ∈ Z.opp <$> heap_below F pending ↔ x ∈ pending ∧ x < F.
Proof.
  unfold heap_below. rewrite list_elem_of_fmap. split.
  - intros (y & -> & Hy). apply elem_of_pushes in Hy as [Hy|Hy].
    + apply list_elem_of_fmap in Hy as (z & -> & Hz).
      apply list_elem_of_filter in Hz as [Hlt Hz].
      by rewrite Z.opp_involutive.
    + by apply elem_of_nil in Hy.
  - intros [Hx Hlt]. exists (- x). split; [lia|].
    apply elem_of_pushes. left. apply list_elem_of_fmap.
    exists x. split; [done|]. by apply list_elem_of_filter.
Qed.

Lemma heap_below_sorted (F : Z) (pending : list Z) :
  NoDup pending → StronglySorted Z.gt (Z.opp <$> heap_below F pending).
Proof.
  intros Hnd. apply opp_sorted, pushes_sorted; [| |constructor].
  - apply NoDup_fmap_2; [|by apply NoDup_filter]. intros x y; lia.
  - intros x _. apply not_elem_of_nil.
Qed.

(** Heaps built from pending lists with the same floors off the current
    one are the same heaps. *)
Lemma heap_above_ext (F : Z) (l1 l2 : list Z) :
  NoDup l1 → NoDup l2 → (∀ x, x ≠ F → x ∈ l1 ↔ x ∈ l2) →
  heap_above F l1 = heap_above F l2.
Proof.
  intros H1 H2 Heq. apply lt_sorted_unique; auto using heap_above_sorted.
  intros x. rewrite !elem_of_heap_above.
  split; intros [Hx Hlt]; (split; [apply Heq; [lia|done]|done]).
Qed.

Lemma heap_below_ext (F : Z) (l1 l2 : list Z) :
  NoDup l1 → NoDup l2 → (∀ x, x ≠ F → x ∈ l1 ↔ x ∈ l2) →
  heap_below F l1 = heap_below F l2.
Proof.
  intros H1 H2 Heq. apply lt_sorted_unique.
  - apply pushes_sorted; [| |constructor].
    + apply NoDup_fmap_2; [|by apply NoDup_filter]. intros x y; lia.
    + intros x _. apply not_elem_of_nil.
  - apply pushes_sorted; [| |constructor].
    + apply NoDup_fmap_2; [|by apply NoDup_filter]. intros x y; lia.
    + intros x _. apply not_elem_of_nil.
  - intros x. unfold heap_below.
    rewrite !elem_of_pushes, !list_elem_of_fmap.
    split; (intros [(y & -> & Hy)|Hx]; [left; exists y; split; [done|]|by right]);
      apply list_elem_of_filter in Hy as [Hlt Hy]; apply list_elem_of_filter;
      (split; [done|apply Heq; [lia|done]]).
Qed.

(** A whole cycle is the stops of [plan_of], one after the other,
    followed by the last four assignments. *)
Lemma process_floors_plan (pending : list Z) (e : t) :
  NoDup pending →
  Look.process_floors pending e
  = (finish (run_moves (plan_of pending e) e).1, (run_moves (plan_of pending e) e).2).
Proof.
  intros Hnd. unfold Look.process_floors, plan_of.
  set (F := current_floor e).
  rewrite (classify_fold pending) by done.
  cbn [Look.car Look.up_heap Look.down_heap Look.printed app]. fold F.
  fold (heap_above F pending). fold (heap_below F pending).
  assert (Hup : ∀ a : t,
    (let '(elevator2, up_left, tr_up) := Look.while_up_heap (heap_above F pending) a in
     let '(elevator3, tr_down) :=
       if Look.direction_in (direction elevator2) [Direction.IDLE; Direction.DOWN]
          || Look.is_empty up_left
       then Look.while_down_heap (heap_below F pending) elevator2
       else (elevator2, []) in
     (finish elevator3, tr_up ++ tr_down))
    = (finish (run_moves (heap_above F pending ++ (Z.opp <$> heap_below F pending)) a).1,
       (run_moves (heap_above F pending ++ (Z.opp <$> heap_below F pending)) a).2)).
  { intros a. rewrite while_up_heap_run. cbn [Look.is_empty].
    rewrite orb_true_r, while_down_heap_run, run_moves_app.
    by destruct (run_moves (Z.opp <$> heap_below F pending) _). }
  destruct (decide (F ∈ pending)) as [Hin|Hin].
  - destruct (move_to_floor_here e) as [_ Hdir]. fold F in Hdir.
    rewrite Hdir, (decide_False (P := _ ∧ F ∉ pending)) by tauto.
    change (Look.direction_in Direction.IDLE [Direction.IDLE; Direction.UP]) with true.
    cbv iota.
    rewrite <- app_comm_cons, run_moves_cons. cbn [app fst snd].
    specialize (Hup (move_to_floor e F).1).
    destruct (Look.while_up_heap _ _) as [[e2 left_over] tr_up].
    destruct (if _ || _ then _ else _) as [e3 tr_down]. fold (finish e3).
    apply pair_equal_spec in Hup as [H1 H2]. by rewrite H1, H2.
  - cbn [app]. destruct (direction e) eqn:Hdir.
    + rewrite (decide_False (P := _ ∧ F ∉ pending)) by (intros [? _]; done).
      change (Look.direction_in Direction.UP [Direction.IDLE; Direction.UP]) with true.
      cbv iota. specialize (Hup e).
      destruct (Look.while_up_heap _ _) as [[e2 left_over] tr_up].
      destruct (if _ || _ then _ else _) as [e3 tr_down]. fold (finish e3).
      apply pair_equal_spec in Hup as [H1 H2]. by rewrite H1, H2.
    + rewrite (decide_True (P := _ ∧ F ∉ pending)) by done.
      change (Look.direction_in Direction.DOWN [Direction.IDLE; Direction.UP]) with false.
      cbv iota. rewrite Hdir.
      change (Look.direction_in Direction.DOWN [Direction.IDLE; Direction.DOWN]) with true.
      cbn [orb app]. rewrite while_down_heap_run.
      by destruct (run_moves _ e).
    + rewrite (decide_False (P := _ ∧ F ∉ pending)) by (intros [? _]; done).
      change (Look.direction_in Direction.IDLE [Direction.IDLE; Direction.UP]) with true.
      cbv iota. specialize (Hup e).
      destruct (Look.while_up_heap _ _) as [[e2 left_over] tr_up].
      destruct (if _ || _ then _ else _) as [e3 tr_down]. fold (finish e3).
      apply pair_equal_spec in Hup as [H1 H2]. by rewrite H1, H2.
Qed.

Lemma look_process_requests_plan (e : t) :
  Look.process_requests e
  = (finish (run_moves (plan e) e).1, (run_moves (plan e) e).2).
Proof. apply process_floors_plan, NoDup_elements. Qed.

(** The order in which the [for] loop meets the pending floors has no
    influence on the cycle. *)
Lemma plan_of_ext (l1 l2 : list Z) (e : t) :
  NoDup l1 → NoDup l2 → (∀ x, x ∈ l1 ↔ x ∈ l2) → plan_of l1 e = plan_of l2 e.
Proof.
  intros H1 H2 Heq. unfold plan_of.
  rewrite (heap_above_ext _ l1 l2), (heap_below_ext _ l1 l2) by (done || by intros).
  destruct (decide (current_floor e ∈ l1)) as [Hin|Hin].
  - rewrite (decide_True (P := _ ∈ l2)) by (by apply Heq).
    by rewrite !(decide_False (P := _ ∧ _)) by (rewrite <- ?Heq; tauto).
  - rewrite (decide_False (P := _ ∈ l2)) by (by rewrite <- Heq).
    destruct (decide (direction e = Direction.DOWN)) as [Hd|Hd].
    + by rewrite !(decide_True (P := _ ∧ _)) by (rewrite <- ?Heq; done).
    + by rewrite !(decide_False (P := _ ∧ _)) by tauto.
Qed.

Lemma process_floors_any_order (pending : list Z) (e : t) :
  NoDup pending → (∀ x, x ∈ pending ↔ x ∈ Look.requests e) →
  Look.process_floors pending e = Look.process_requests e.
Proof.
  intros Hnd Heq. unfold Look.process_requests.
  rewrite !process_floors_plan by (done || apply NoDup_elements).
  rewrite (plan_of_ext pending (elements (Look.requests e))); [done|done| |].
  - apply NoDup_elements.
  - intros x. by rewrite Heq, elem_of_elements.
Qed.

End CycleFacts.

(** ** The order of the stops *)

Section OrderFacts.
Import ElevatorCar.

Lemma gt_sorted_unique (l1 l2 : list Z) :
  StronglySorted Z.gt l1 → StronglySorted Z.gt l2 →
  (∀ x, x ∈ l1 ↔ x ∈ l2) → l1 = l2.
Proof.
  intros H1 H2 Heq.
  assert (Hnd : ∀ l, StronglySorted Z.gt l → NoDup l).
  { induction 1 as [|x l Hs IH Hx]; constructor; [|done].
    intros Hin. eapply Forall_forall in Hx; [|exact Hin]. lia. }
  apply (StronglySorted_unique_strong Z.gt); [intros; lia|done|done|].
  apply NoDup_Permutation; auto.
Qed.

Lemma visits_look (e : t) : visits (Look.process_requests e).2 = plan e.
Proof. rewrite look_process_requests_plan. apply visits_run_moves. Qed.

Lemma plan_not_down (e : t) :
  direction e ≠ Direction.DOWN →
  plan e
  = (if decide (current_floor e ∈ Look.requests e) then [current_floor e] else [])
    ++ heap_above (current_floor e) (elements (Look.requests e))
    ++ (Z.opp <$> heap_below (current_floor e) (elements (Look.requests e))).
Proof.
  intros Hd. unfold plan, plan_of.
  rewrite (decide_False (P := _ ∧ _)) by tauto.
  f_equal. destruct (decide (_ ∈ elements _)) as [Hin|Hin], (decide (_ ∈ Look.requests e));
    try done; exfalso; rewrite elem_of_elements in Hin; done.
Qed.

Lemma plan_here (e : t) :
  current_floor e ∈ Look.requests e →
  plan e
  = current_floor e
    :: heap_above (current_floor e) (elements (Look.requests e))
    ++ (Z.opp <$> heap_below (current_floor e) (elements (Look.requests e))).
Proof.
  intros Hin. unfold plan, plan_of.
  rewrite (decide_True (P := _ ∈ elements _)) by (by apply elem_of_elements).
  rewrite (decide_False (P := _ ∧ _)); [done|].
  rewrite elem_of_elements. tauto.
Qed.

Lemma heap_above_requests (e : t) (F f : Z) :
  f ∈ heap_above F (elements (Look.requests e)) ↔ f ∈ Look.requests e ∧ F < f.
Proof. by rewrite elem_of_heap_above, elem_of_elements. Qed.

Lemma heap_below_requests (e : t) (F f : Z) :
  f ∈ Z.opp <$> heap_below F (elements (Look.requests e)) ↔ f ∈ Look.requests e ∧ f < F.
Proof. by rewrite elem_of_heap_below, elem_of_elements. Qed.

End OrderFacts.

(** ** The request store *)

Section StoreFacts.
Import ElevatorCar.

Lemma filter_absent (f : Z) (l : list Z) : f ∉ l → filter (λ g, g = f) l = [].
Proof.
  induction l as [|x l IH]; intros Hf; [done|].
  apply not_elem_of_cons in Hf as [Hne Hf].
  rewrite filter_cons, decide_False by done. by apply IH.
Qed.

(** Every state the public methods build keeps the store free of
    repeated cabin floors. *)
Lemma store_ok_init (i : Z) (s : option MovementStrategy) : store_ok (init i s).
Proof. apply NoDup_nil_2. Qed.

Lemma store_ok_press (e : t) (f : Z) :
  store_ok e → store_ok (press_internal_button e f).
Proof.
  unfold store_ok, press_internal_button. intros Hok.
  case_bool_decide as Hf; [done|]. simpl.
  apply NoDup_app. split; [done|]. split; [|apply NoDup_singleton].
  intros x Hx Hx'. apply list_elem_of_singleton in Hx'. by subst.
Qed.

Lemma store_ok_add (e : t) (f : Z) (d : Direction.t) :
  store_ok e → store_ok (add_external_request e f d).
Proof.
  unfold store_ok, add_external_request. by destruct (external_requests e !! f).
Qed.

Lemma store_ok_move (e : t) (f : Z) : store_ok e → store_ok (move_to_floor e f).1.
Proof. done. Qed.

Lemma store_ok_cycle (e : t) : store_ok (process_requests e).1.
Proof.
  unfold process_requests. destruct (strategy e).
  rewrite look_process_requests_plan. apply NoDup_nil_2.
Qed.

End StoreFacts.

(** ** Dispatch *)

Section DispatchFacts.

(** One policy: the hall call is added to the target car if the floor is
    eligible and the car exists, and nothing else happens. *)
Lemma assign_elevator_alter (s : ExternalButtonDispatcherStrategy)
    (m : gmap Z ElevatorCar.t) (f : Z) (d : Direction.t) :
  assign_elevator s m f d
  = Some (if decide (eligible s f)
          then alter (λ c, ElevatorCar.add_external_request c f d) (target s) m
          else m).
Proof.
  assert (Hk : ∀ k : Z,
    (if contains m k then enqueue m k f d else Some m)
    = Some (alter (λ c, ElevatorCar.add_external_request c f d) k m)).
  { intros k. unfold contains, enqueue. rewrite alter_alt.
    by destruct (m !! k) as [c|] eqn:Hc. }
  destruct s as [| |fixed_floors]; simpl.
  - destruct (Z.eqb_spec (f mod 2) 1).
    + rewrite decide_True by done. apply Hk.
    + by rewrite decide_False.
  - destruct (Z.eqb_spec (f mod 2) 0).
    + rewrite decide_True by done. apply Hk.
    + by rewrite decide_False.
  - case_bool_decide.
    + rewrite decide_True by done. apply Hk.
    + by rewrite decide_False.
Qed.

(** The hall call is pending in a car it has been added to. *)
Lemma add_external_request_pending (c : ElevatorCar.t) (f : Z) (d : Direction.t) :
  f ∈ Look.requests (ElevatorCar.add_external_request c f d).
Proof.
  apply elem_of_requests. right. unfold ElevatorCar.add_external_request.
  destruct (ElevatorCar.external_requests c !! f) as [d0|] eqn:Hf.
  - by rewrite Hf.
  - simpl. rewrite lookup_insert_eq. by eexists.
Qed.

End DispatchFacts.

(** * The claims *)

Section Claims.
Import ElevatorCar.

(** C5: the pending floors a cycle iterates over hold no floor twice, and
    they are exactly the floors of the cabin requests together with the
    floors of the hall calls. *)
Theorem pending_floors_are_the_union (e : ElevatorCar.t) :
  NoDup (elements (Look.requests e))
  ∧ (∀ f : Z, f ∈ elements (Look.requests e)
       ↔ f ∈ internal_requests e ∨ is_Some (external_requests e !! f))
  ∧ Look.requests e = list_to_set (internal_requests e) ∪ dom (external_requests e).
Proof.
  split; [apply NoDup_elements|]. split.
  - intros f. by rewrite elem_of_elements, elem_of_requests.
  - apply set_eq. intros f.
    by rewrite elem_of_requests, elem_of_union, elem_of_list_to_set, elem_of_dom.
Qed.

(** C2: whatever the car's state, a processing cycle returns, and after it
    the internal-request list and the external-request mapping are empty,
    the status is Idle and the direction is Idle. *)
Theorem cycle_ends_idle_and_empty (e : ElevatorCar.t) :
  let e' := (process_requests e).1 in
  internal_requests e' = []
  ∧ external_requests e' = ∅
  ∧ Look.requests e' = ∅
  ∧ status e' = Status.IDLE
  ∧ direction e' = Direction.IDLE.
Proof.
  unfold process_requests. destruct (strategy e).
  rewrite look_process_requests_plan. cbn [fst finish].
  repeat split; reflexivity.
Qed.

(** C1: a car that starts a cycle with direction Idle or Up stops at the
    pending floors above its floor in ascending order, and after them at
    the pending floors below its floor in descending order (a pending
    request for the floor it stands at is served before both); so, from
    floor F, direction Up and pending floors F+2, F+5, F-1 give the stops
    F+2, F+5, F-1, and direction Idle and pending floors F-3, F-1, F+4
    give the stops F+4, F-1, F-3. *)
Theorem look_order_idle_or_up (e : ElevatorCar.t) :
  direction e = Direction.IDLE ∨ direction e = Direction.UP →
  let F := current_floor e in
  let stops := visits (process_requests e).2 in
  (∃ up down : list Z,
      stops = (if decide (F ∈ Look.requests e) then [F] else []) ++ up ++ down
      ∧ StronglySorted Z.lt up
      ∧ (∀ f, f ∈ up ↔ f ∈ Look.requests e ∧ F < f)
      ∧ StronglySorted Z.gt down
      ∧ (∀ f, f ∈ down ↔ f ∈ Look.requests e ∧ f < F))
  ∧ (direction e = Direction.UP →
     Look.requests e = {[F + 2; F + 5; F - 1]} →
     stops = [F + 2; F + 5; F - 1])
  ∧ (direction e = Direction.IDLE →
     Look.requests e = {[F - 3; F - 1; F + 4]} →
     stops = [F + 4; F - 1; F - 3]).
Proof.
  intros Hdir F stops.
  assert (Hnd : direction e ≠ Direction.DOWN) by (destruct Hdir as [-> | ->]; done).
  assert (Hstops : stops
    = (if decide (F ∈ Look.requests e) then [F] else [])
      ++ heap_above F (elements (Look.requests e))
      ++ (Z.opp <$> heap_below F (elements (Look.requests e)))).
  { unfold stops, process_requests. destruct (strategy e).
    rewrite visits_look. by apply plan_not_down. }
  split; [|split].
  - eexists _, _. split; [exact Hstops|].
    split; [apply heap_above_sorted, NoDup_elements|].
    split; [apply heap_above_requests|].
    split; [apply heap_below_sorted, NoDup_elements|].
    apply heap_below_requests.
  - intros _ Hreq. rewrite Hstops.
    rewrite (decide_False (P := F ∈ _)) by (rewrite Hreq; floors).
    rewrite (lt_sorted_unique (heap_above F _) [F + 2; F + 5]).
    + rewrite (gt_sorted_unique (Z.opp <$> heap_below F _) [F - 1]); [done| | |].
      * apply heap_below_sorted, NoDup_elements.
      * repeat constructor.
      * intros x. rewrite heap_below_requests, Hreq. floors.
    + apply heap_above_sorted, NoDup_elements.
    + repeat constructor; lia.
    + intros x. rewrite heap_above_requests, Hreq. floors.
  - intros _ Hreq. rewrite Hstops.
    rewrite (decide_False (P := F ∈ _)) by (rewrite Hreq; floors).
    rewrite (lt_sorted_unique (heap_above F _) [F + 4]).
    + rewrite (gt_sorted_unique (Z.opp <$> heap_below F _) [F - 1; F - 3]); [done| | |].
      * apply heap_below_sorted, NoDup_elements.
      * repeat constructor; lia.
      * intros x. rewrite heap_below_requests, Hreq. floors.
    + apply heap_above_sorted, NoDup_elements.
    + repeat constructor.
    + intros x. rewrite heap_above_requests, Hreq. floors.
Qed.

(** C1, two instances: a car gone up to floor 10 with
    cabin requests 12, 15 and 9, and a car left at floor 10 by a cycle
    with cabin requests 7, 9 and 14. *)
Lemma look_order_idle_or_up_witness :
  (direction (press_all (gone_up_to 10) [12; 15; 9]) = Direction.UP
   ∧ Look.requests (press_all (gone_up_to 10) [12; 15; 9]) = {[12; 15; 9]}
   ∧ visits (process_requests (press_all (gone_up_to 10) [12; 15; 9])).2 = [12; 15; 9])
  ∧ (direction (press_all (rested_at 10) [7; 9; 14]) = Direction.IDLE
     ∧ Look.requests (press_all (rested_at 10) [7; 9; 14]) = {[7; 9; 14]}
     ∧ visits (process_requests (press_all (rested_at 10) [7; 9; 14])).2 = [14; 9; 7]).
Proof.
  split.
  - split; [reflexivity|]. split; [reflexivity|].
    apply (look_order_idle_or_up (press_all (gone_up_to 10) [12; 15; 9]));
      [right; reflexivity|reflexivity|reflexivity].
  - split; [reflexivity|]. split; [reflexivity|].
    apply (look_order_idle_or_up (press_all (rested_at 10) [7; 9; 14]));
      [left; reflexivity|reflexivity|reflexivity].
Defined.

(** C7, as the code has it: when a pending floor is the floor the car
    stands at, the cycle serves it first, with a stop that reports no
    traversed floor; and when the car starts the cycle with direction Idle
    or Up, the rest of the cycle, its stops, its output and the state it
    ends in, is what the cycle would be with that floor taken out of the
    store. *)
Theorem stop_at_current_floor (e : ElevatorCar.t) :
  current_floor e ∈ Look.requests e →
  let F := current_floor e in
  let here := (move_to_floor e F).2 in
  traversals here = []
  ∧ visits here = [F]
  ∧ (∃ rest, (process_requests e).2 = here ++ rest)
  ∧ (direction e = Direction.IDLE ∨ direction e = Direction.UP →
     (process_requests e).2 = here ++ (process_requests (without_floor e F)).2
     ∧ (process_requests e).1 = (process_requests (without_floor e F)).1).
Proof.
  intros Hin F here.
  split; [|split; [|split]].
  - unfold here, F. rewrite (proj1 (move_to_floor_here e)). apply traversals_notify.
  - apply visits_move_to_floor.
  - unfold process_requests. destruct (strategy e).
    rewrite look_process_requests_plan, (plan_here e Hin), run_moves_cons.
    cbn [snd]. by eexists.
  - intros Hdir.
    assert (Hnd : direction e ≠ Direction.DOWN) by (destruct Hdir as [-> | ->]; done).
    set (e0 := without_floor e F).
    assert (Hout : F ∉ Look.requests e0).
    { intros Hc. apply requests_without_floor in Hc. tauto. }
    assert (Hplan : plan e = F :: plan e0).
    { rewrite (plan_here e Hin), (plan_not_down e0 Hnd). fold F.
      change (current_floor e0) with F.
      rewrite (decide_False (P := F ∈ Look.requests e0)) by done.
      assert (Hsame : ∀ x, x ≠ F →
                x ∈ elements (Look.requests e) ↔ x ∈ elements (Look.requests e0)).
      { intros x Hx. rewrite !elem_of_elements. unfold e0.
        rewrite requests_without_floor. tauto. }
      cbn [app].
      rewrite (heap_above_ext F _ (elements (Look.requests e0))),
        (heap_below_ext F _ (elements (Look.requests e0)));
        first [done | apply NoDup_elements]. }
    unfold process_requests. change (strategy e0) with (strategy e).
    destruct (strategy e). rewrite !look_process_requests_plan, Hplan.
    rewrite run_moves_cons. cbn [fst snd]. fold here.
    destruct (same_cabin_run_moves (plan e0) (move_to_floor e F).1 e0) as [Htr Hcab].
    { by apply (same_cabin_moved e F). }
    split; [by rewrite Htr|]. by apply same_cabin_finish.
Qed.

(** C7, an instance: a car gone up to floor 5 with cabin requests 5, 7
    and 3. *)
Lemma stop_at_current_floor_witness :
  5 ∈ Look.requests (press_all (gone_up_to 5) [5; 7; 3])
  ∧ direction (press_all (gone_up_to 5) [5; 7; 3]) = Direction.UP
  ∧ visits (process_requests (press_all (gone_up_to 5) [5; 7; 3])).2
    = 5 :: visits (process_requests
                     (without_floor (press_all (gone_up_to 5) [5; 7; 3]) 5)).2.
Proof.
  split; [by vm_compute|]. split; [reflexivity|].
  destruct (stop_at_current_floor (press_all (gone_up_to 5) [5; 7; 3]))
    as (_ & Hv & _ & Hrest); [by vm_compute|].
  destruct Hrest as [Htr _]; [right; reflexivity|].
  rewrite Htr, visits_app, Hv. reflexivity.
Defined.

(** C7 as stated fails for a car whose direction is Down: come down from
    floor 8 to floor 5, with cabin requests 5 and 7, the car stops at 5
    and then at 7, while without the request for floor 5 the same car
    stops nowhere. *)
Lemma stop_at_current_floor_down_counterexample :
  direction (press_all (come_down_to 8 5) [5; 7]) = Direction.DOWN
  ∧ current_floor (press_all (come_down_to 8 5) [5; 7]) = 5
  ∧ 5 ∈ Look.requests (press_all (come_down_to 8 5) [5; 7])
  ∧ visits (process_requests (press_all (come_down_to 8 5) [5; 7])).2 = [5; 7]
  ∧ visits (process_requests
              (without_floor (press_all (come_down_to 8 5) [5; 7]) 5)).2 = []
  ∧ (process_requests (press_all (come_down_to 8 5) [5; 7])).2
    ≠ (move_to_floor (press_all (come_down_to 8 5) [5; 7]) 5).2
      ++ (process_requests
            (without_floor (press_all (come_down_to 8 5) [5; 7]) 5)).2.
Proof.
  split; [reflexivity|]. split; [reflexivity|]. split; [by vm_compute|].
  split; [reflexivity|]. split; [reflexivity|].
  intros Heq. apply (f_equal visits) in Heq. vm_compute in Heq. discriminate Heq.
Qed.

(** C8: a move from floor p to a different floor q reports, through the
    car's display, every floor after p up to and including q, each once
    and in the order travelled (ascending when q is above p, descending
    when q is below), and only then announces the arrival at q. *)
Theorem traversal_reports_follow_the_path (e : ElevatorCar.t) (q : Z) :
  q ≠ current_floor e →
  let p := current_floor e in
  ∃ path : list Z,
    (move_to_floor e q).2
    = map (Traversed (Display.elevator_id (display e))) path
      ++ Arrived (id e) q (if p <? q then Direction.UP else Direction.DOWN)
         :: concat (map ElevatorObserver_update (observers e))
    ∧ traversals (move_to_floor e q).2 = path
    ∧ (p < q → StronglySorted Z.lt path ∧ ∀ f, f ∈ path ↔ p < f ≤ q)
    ∧ (q < p → StronglySorted Z.gt path ∧ ∀ f, f ∈ path ↔ q ≤ f < p).
Proof.
  intros Hne p. fold p in Hne.
  exists (traversals (move_to_floor e q).2).
  assert (Htr : traversals (move_to_floor e q).2
                = range (p + (if q >? p then 1 else -1))
                        (q + (if q >? p then 1 else -1))
                        (if q >? p then 1 else -1)).
  { unfold move_to_floor. cbn [snd].
    rewrite traversals_app, traversals_notify, app_nil_r.
    apply traversals_show_movement. }
  split; [|split; [done|]].
  - rewrite Htr. unfold move_to_floor, Display.show_movement, notify.
    cbn [snd id current_floor direction observers]. fold p.
    do 3 f_equal. rewrite Z.gtb_ltb.
    destruct (Z.ltb_spec p q); [done|].
    destruct (Z.ltb_spec q p); [done|lia].
  - rewrite Htr. rewrite Z.gtb_ltb. split; intros Hlt.
    + rewrite (proj2 (Z.ltb_lt p q)) by done.
      split; [apply range_up_sorted|].
      intros f. rewrite elem_of_range_up. lia.
    + rewrite (proj2 (Z.ltb_ge p q)) by lia.
      split; [apply range_down_sorted|].
      intros f. rewrite elem_of_range_down. lia.
Qed.

(** C8, an instance: the car at floor 6 is sent to floor 3. *)
Lemma traversal_reports_follow_the_path_witness :
  3 ≠ current_floor (gone_up_to 6)
  ∧ ∃ path : list Z,
      (move_to_floor (gone_up_to 6) 3).2
      = map (Traversed (Some 0)) path
        ++ Arrived 0 3 Direction.DOWN
           :: concat (map ElevatorObserver_update (observers (gone_up_to 6)))
      ∧ traversals (move_to_floor (gone_up_to 6) 3).2 = path
      ∧ (6 < 3 → StronglySorted Z.lt path ∧ ∀ f, f ∈ path ↔ 6 < f ≤ 3)
      ∧ (3 < 6 → StronglySorted Z.gt path ∧ ∀ f, f ∈ path ↔ 3 ≤ f < 6).
Proof.
  split; [by vm_compute|].
  apply (traversal_reports_follow_the_path (gone_up_to 6) 3). by vm_compute.
Defined.

(** C3 as stated fails: on a new car, a hall call at floor 3 going Up
    followed by a hall call at floor 3 going Down leaves Up recorded. *)
Lemma second_hall_call_overwrites_counterexample :
  external_requests
    (add_external_request
       (add_external_request (ElevatorCar.init 0 None) 3 Direction.UP)
       3 Direction.DOWN) !! 3
  = Some Direction.UP
  ∧ external_requests
      (add_external_request
         (add_external_request (ElevatorCar.init 0 None) 3 Direction.UP)
         3 Direction.DOWN) !! 3
    ≠ Some Direction.DOWN.
Proof. split; [reflexivity|]. by vm_compute. Qed.

(** C3, as the code has it: after a hall call for floor f with direction d1
    and a second one for f with direction d2, the direction recorded for f
    is the one recorded after the first call, which is d1 unless f had a
    direction recorded before it; the second call's direction is dropped. *)
Theorem second_hall_call_keeps_first (e : ElevatorCar.t) (f : Z) (d1 d2 : Direction.t) :
  external_requests (add_external_request (add_external_request e f d1) f d2) !! f
  = external_requests (add_external_request e f d1) !! f
  ∧ external_requests (add_external_request (add_external_request e f d1) f d2) !! f
    = Some (default d1 (external_requests e !! f)).
Proof.
  assert (H1 : external_requests (add_external_request e f d1) !! f
               = Some (default d1 (external_requests e !! f))).
  { unfold add_external_request.
    destruct (external_requests e !! f) as [d0|] eqn:Hf; simpl; [done|].
    apply lookup_insert_eq. }
  assert (H2 : add_external_request (add_external_request e f d1) f d2
               = add_external_request e f d1).
  { unfold add_external_request at 1. by rewrite H1. }
  by rewrite H2.
Qed.

(** C9: when floor f already has a direction recorded in the car's
    external-request mapping, a further hall call for f, whatever its
    direction, returns the car unchanged in every field, the recorded
    direction included. *)
Theorem recorded_hall_call_is_kept (e : ElevatorCar.t) (f : Z) (d : Direction.t) :
  is_Some (external_requests e !! f) →
  add_external_request e f d = e
  ∧ external_requests (add_external_request e f d) !! f = external_requests e !! f.
Proof.
  intros [d0 Hf].
  assert (H : add_external_request e f d = e).
  { unfold add_external_request. by rewrite Hf. }
  by rewrite H.
Qed.

(** C9, an instance: floor 4 recorded going Up, then called going Down. *)
Lemma recorded_hall_call_is_kept_witness :
  is_Some (external_requests
             (add_external_request (ElevatorCar.init 1 None) 4 Direction.UP) !! 4)
  ∧ add_external_request
      (add_external_request (ElevatorCar.init 1 None) 4 Direction.UP) 4 Direction.DOWN
    = add_external_request (ElevatorCar.init 1 None) 4 Direction.UP.
Proof.
  split; [by eexists|].
  apply (recorded_hall_call_is_kept
           (add_external_request (ElevatorCar.init 1 None) 4 Direction.UP)
           4 Direction.DOWN).
  by eexists.
Defined.

(** C6: pressing the cabin button for floor f a second time changes
    nothing, and on a car whose store holds no cabin floor twice the two
    presses leave exactly one pending internal request for f. *)
Theorem press_twice_is_press_once (e : ElevatorCar.t) (f : Z) :
  press_internal_button (press_internal_button e f) f = press_internal_button e f
  ∧ f ∈ internal_requests (press_internal_button (press_internal_button e f) f)
  ∧ (store_ok e →
     length (filter (λ g, g = f)
               (internal_requests (press_internal_button (press_internal_button e f) f)))
     = 1%nat
     ∧ store_ok (press_internal_button (press_internal_button e f) f)).
Proof.
  assert (Hin : f ∈ internal_requests (press_internal_button e f)).
  { unfold press_internal_button. case_bool_decide as Hf; [done|].
    simpl. apply elem_of_app. right. by apply list_elem_of_singleton. }
  assert (Hsame : press_internal_button (press_internal_button e f) f
                  = press_internal_button e f).
  { unfold press_internal_button at 1. by rewrite bool_decide_eq_true_2. }
  rewrite Hsame. split; [done|]. split; [done|].
  intros Hok.
  assert (Hnd : NoDup (internal_requests (press_internal_button e f)))
    by (by apply store_ok_press).
  split; [|done].
  revert Hin Hnd. generalize (internal_requests (press_internal_button e f)).
  intros l. induction l as [|x l IH]; intros Hin Hnd.
  - by apply elem_of_nil in Hin.
  - apply NoDup_cons in Hnd as [Hx Hnd]. rewrite filter_cons.
    destruct (decide (x = f)) as [->|Hne].
    + simpl. f_equal. by rewrite filter_absent.
    + apply IH; [|done]. apply elem_of_cons in Hin as [->|Hin]; done.
Qed.

(** C6, an instance: a new car with cabin requests 7 and 2, and button 7
    pressed twice more. *)
Lemma press_twice_is_press_once_witness :
  store_ok (press_all (ElevatorCar.init 0 None) [7; 2])
  ∧ internal_requests
      (press_internal_button
         (press_internal_button (press_all (ElevatorCar.init 0 None) [7; 2]) 7) 7)
    = [7; 2]
  ∧ length (filter (λ g, g = 7)
              (internal_requests
                 (press_internal_button
                    (press_internal_button
                       (press_all (ElevatorCar.init 0 None) [7; 2]) 7) 7)))
    = 1%nat.
Proof.
  assert (Hok : store_ok (press_all (ElevatorCar.init 0 None) [7; 2])).
  { change (NoDup [7; 2]). repeat constructor; floors. }
  split; [exact Hok|]. split; [reflexivity|].
  destruct (press_twice_is_press_once (press_all (ElevatorCar.init 0 None) [7; 2]) 7)
    as (_ & _ & Hone).
  exact (proj1 (Hone Hok)).
Defined.

(** C4: a hall call is offered to the odd, the even and the fixed policy
    in that order and each of them acts on it, whatever the others did:
    car 0 receives it when the floor is odd, car 1 when it is even, car 2
    when it is a fixed floor, and no other car changes.  With cars 0, 1
    and 2 present and fixed floors 0, 5 and 9, a call at floor 3 changes
    car 0 only, a call at floor 9 reaches car 2, and a call at floor 5
    reaches both car 0 and car 2. *)
Theorem every_policy_is_applied (m : gmap Z ElevatorCar.t) (fixed_floors : list Z)
    (f : Z) (d : Direction.t) :
  ∃ m' : gmap Z ElevatorCar.t,
    ElevatorController.handle_external_request
      (ElevatorController.init m fixed_floors) f d
    = Some (ElevatorController.init m' fixed_floors)
    ∧ m' !! 0 = (if decide (f mod 2 = 1)
                 then (λ c, add_external_request c f d) <$> m !! 0 else m !! 0)
    ∧ m' !! 1 = (if decide (f mod 2 = 0)
                 then (λ c, add_external_request c f d) <$> m !! 1 else m !! 1)
    ∧ m' !! 2 = (if decide (f ∈ fixed_floors)
                 then (λ c, add_external_request c f d) <$> m !! 2 else m !! 2)
    ∧ (∀ i : Z, i ≠ 0 → i ≠ 1 → i ≠ 2 → m' !! i = m !! i)
    ∧ (∀ c0 c1 c2 : ElevatorCar.t,
         m !! 0 = Some c0 → m !! 1 = Some c1 → m !! 2 = Some c2 →
         fixed_floors = [0; 5; 9] →
         (f = 3 → m' = <[0 := add_external_request c0 3 d]> m
                  ∧ 3 ∈ Look.requests (add_external_request c0 3 d))
         ∧ (f = 9 → m' !! 2 = Some (add_external_request c2 9 d)
                    ∧ 9 ∈ Look.requests (add_external_request c2 9 d))
         ∧ (f = 5 → m' !! 0 = Some (add_external_request c0 5 d)
                    ∧ m' !! 2 = Some (add_external_request c2 5 d)
                    ∧ 5 ∈ Look.requests (add_external_request c0 5 d)
                    ∧ 5 ∈ Look.requests (add_external_request c2 5 d))).
Proof.
  set (g := λ c, add_external_request c f d).
  set (step := λ (s : ExternalButtonDispatcherStrategy) (a : gmap Z ElevatorCar.t),
         if decide (eligible s f) then alter g (target s) a else a).
  exists (step (FixedDispatcher fixed_floors) (step EvenDispatcher (step OddDispatcher m))).
  assert (Hlook : ∀ (s : ExternalButtonDispatcherStrategy) a i,
            step s a !! i
            = if decide (i = target s ∧ eligible s f) then g <$> a !! i else a !! i).
  { intros s a i. unfold step. destruct (decide (eligible s f)) as [He|He].
    - rewrite lookup_alter. destruct (decide (target s = i)) as [<-|Hne].
      + by rewrite decide_True.
      + rewrite decide_False; [done|]. intros [-> _]. done.
    - rewrite decide_False; [done|]. tauto. }
  assert (H0 : step (FixedDispatcher fixed_floors)
                 (step EvenDispatcher (step OddDispatcher m)) !! 0
               = if decide (f mod 2 = 1) then g <$> m !! 0 else m !! 0).
  { rewrite !Hlook. cbn [target eligible].
    rewrite (decide_False (P := 0 = 2 ∧ _)), (decide_False (P := 0 = 1 ∧ _))
      by (intros [? _]; done).
    destruct (decide (f mod 2 = 1)).
    - by rewrite decide_True.
    - rewrite decide_False; [done|tauto]. }
  assert (H1 : step (FixedDispatcher fixed_floors)
                 (step EvenDispatcher (step OddDispatcher m)) !! 1
               = if decide (f mod 2 = 0) then g <$> m !! 1 else m !! 1).
  { rewrite !Hlook. cbn [target eligible].
    rewrite (decide_False (P := 1 = 2 ∧ _)), (decide_False (P := 1 = 0 ∧ _))
      by (intros [? _]; done).
    destruct (decide (f mod 2 = 0)).
    - by rewrite decide_True.
    - rewrite decide_False; [done|tauto]. }
  assert (H2 : step (FixedDispatcher fixed_floors)
                 (step EvenDispatcher (step OddDispatcher m)) !! 2
               = if decide (f ∈ fixed_floors) then g <$> m !! 2 else m !! 2).
  { rewrite !Hlook. cbn [target eligible].
    rewrite (decide_False (P := 2 = 1 ∧ _)), (decide_False (P := 2 = 0 ∧ _))
      by (intros [? _]; done).
    destruct (decide (f ∈ fixed_floors)).
    - by rewrite decide_True.
    - rewrite decide_False; [done|tauto]. }
  assert (Hrest : ∀ i : Z, i ≠ 0 → i ≠ 1 → i ≠ 2 →
            step (FixedDispatcher fixed_floors)
              (step EvenDispatcher (step OddDispatcher m)) !! i = m !! i).
  { intros i ? ? ?. rewrite !Hlook. cbn [target].
    by rewrite !decide_False by (intros [? _]; done). }
  split; [|split; [exact H0|split; [exact H1|split; [exact H2|split; [exact Hrest|]]]]].
  - unfold ElevatorController.handle_external_request, ElevatorController.init.
    cbn [ElevatorController.strategies ElevatorController.elevators
         ElevatorController.for_strategies].
    rewrite assign_elevator_alter. cbn [mbind option_bind].
    rewrite assign_elevator_alter. cbn [mbind option_bind].
    rewrite assign_elevator_alter. reflexivity.
  - intros c0 c1 c2 Hc0 Hc1 Hc2 ->. split; [|split]; intros ->.
    + split; [|apply add_external_request_pending].
      apply map_eq. intros i.
      destruct (decide (i = 0)) as [->|?]; [|destruct (decide (i = 1)) as [->|?];
        [|destruct (decide (i = 2)) as [->|?]]].
      * by rewrite H0, lookup_insert_eq, Hc0.
      * by rewrite H1, lookup_insert_ne.
      * rewrite H2, lookup_insert_ne by done.
        rewrite decide_False; [done|floors].
      * by rewrite Hrest, lookup_insert_ne.
    + split; [|apply add_external_request_pending].
      rewrite H2, Hc2. rewrite decide_True; [done|floors].
    + split; [by rewrite H0, Hc0|].
      split; [rewrite H2, Hc2; rewrite decide_True; [done|floors]|].
      split; apply add_external_request_pending.
Qed.

(** C4, an instance: in the building of the usage
    example (three cars, fixed floors 0, 5 and 9) a call at floor 5
    going Down is pending in car 0 and in car 2 afterwards, and car 1 is
    as it was. *)
Lemma every_policy_is_applied_witness :
  ∃ m' : gmap Z ElevatorCar.t,
    ElevatorController.handle_external_request
      (Building.controller 3 [0; 5; 9]) 5 Direction.DOWN
    = Some (ElevatorController.init m' [0; 5; 9])
    ∧ m' !! 0 = Some (add_external_request (ElevatorCar.init 0 None) 5 Direction.DOWN)
    ∧ m' !! 1 = Some (ElevatorCar.init 1 None)
    ∧ m' !! 2 = Some (add_external_request (ElevatorCar.init 2 None) 5 Direction.DOWN).
Proof.
  destruct (every_policy_is_applied (Building.make_elevators 3) [0; 5; 9]
              5 Direction.DOWN) as (m' & Hrun & H0 & H1 & H2 & _ & Hex).
  exists m'. split; [exact Hrun|].
  destruct (Hex (ElevatorCar.init 0 None) (ElevatorCar.init 1 None)
              (ElevatorCar.init 2 None))
    as (_ & _ & H5); [reflexivity..|].
  destruct (H5 eq_refl) as (Hc0 & Hc2 & _).
  split; [exact Hc0|]. split; [exact H1|exact Hc2].
Defined.

(** C10: every policy looks its car up under a fixed id (0 for odd, 1 for
    even, 2 for fixed) and adds the hall call only when the floor is
    eligible and that id is in the map, returning normally either way; so
    a hall call whose eligible policies all target absent ids leaves the
    map of cars, and with it every request store, as it was, without an
    error, as an even-floor call does in a building with the single
    car 0. *)
Theorem absent_targets_are_skipped (m : gmap Z ElevatorCar.t) (fixed_floors : list Z)
    (f : Z) (d : Direction.t) :
  (∀ s : ExternalButtonDispatcherStrategy,
     assign_elevator s m f d
     = Some (match m !! target s with
             | Some c =>
                 if decide (eligible s f)
                 then <[target s := add_external_request c f d]> m else m
             | None => m
             end))
  ∧ ((∀ s, s ∈ [OddDispatcher; EvenDispatcher; FixedDispatcher fixed_floors] →
           eligible s f → m !! target s = None) →
     ElevatorController.handle_external_request
       (ElevatorController.init m fixed_floors) f d
     = Some (ElevatorController.init m fixed_floors))
  ∧ (f mod 2 = 0 →
     ElevatorController.handle_external_request
       (Building.controller 1 fixed_floors) f d
     = Some (Building.controller 1 fixed_floors)).
Proof.
  assert (Hone : ∀ (a : gmap Z ElevatorCar.t) (s : ExternalButtonDispatcherStrategy),
    assign_elevator s a f d
    = Some (match a !! target s with
            | Some c =>
                if decide (eligible s f)
                then <[target s := add_external_request c f d]> a else a
            | None => a
            end)).
  { intros a s. rewrite assign_elevator_alter, alter_alt.
    by destruct (a !! target s), (decide (eligible s f)). }
  assert (Hskip : ∀ a : gmap Z ElevatorCar.t,
    (∀ s, s ∈ [OddDispatcher; EvenDispatcher; FixedDispatcher fixed_floors] →
          eligible s f → a !! target s = None) →
    ElevatorController.handle_external_request
      (ElevatorController.init a fixed_floors) f d
    = Some (ElevatorController.init a fixed_floors)).
  { intros a Habs.
    assert (Hsame : ∀ s,
      s ∈ [OddDispatcher; EvenDispatcher; FixedDispatcher fixed_floors] →
      assign_elevator s a f d = Some a).
    { intros s Hs. rewrite Hone.
      destruct (a !! target s) as [c|] eqn:Hc; [|done].
      destruct (decide (eligible s f)) as [He|He]; [|done].
      rewrite (Habs s Hs He) in Hc. discriminate Hc. }
    unfold ElevatorController.handle_external_request, ElevatorController.init.
    cbn [ElevatorController.strategies ElevatorController.elevators
         ElevatorController.for_strategies].
    rewrite (Hsame OddDispatcher) by (rewrite !elem_of_cons; tauto).
    cbn [mbind option_bind].
    rewrite (Hsame EvenDispatcher) by (rewrite !elem_of_cons; tauto).
    cbn [mbind option_bind].
    rewrite (Hsame (FixedDispatcher fixed_floors)) by (rewrite !elem_of_cons; tauto).
    reflexivity. }
  split; [apply Hone|]. split; [apply Hskip|].
  intros Heven. apply Hskip. intros s Hs He.
  rewrite !elem_of_cons, elem_of_nil in Hs.
  destruct Hs as [->|[->|[->|[]]]]; [|reflexivity|reflexivity].
  simpl in He. lia.
Qed.

(** C10, an instance: a call at floor 4 in a building whose only car has
    id 0. *)
Lemma absent_targets_are_skipped_witness :
  4 mod 2 = 0
  ∧ ElevatorController.handle_external_request
      (Building.controller 1 [0; 5; 9]) 4 Direction.UP
    = Some (Building.controller 1 [0; 5; 9]).
Proof.
  split; [reflexivity|].
  apply (absent_targets_are_skipped (Building.make_elevators 1) [0; 5; 9]
           4 Direction.UP).
  reflexivity.
Defined.

End Claims.

(** * Further properties of the scheduler *)

Section PlanFacts.
Import ElevatorCar.

Lemma process_requests_look (e : t) : process_requests e = Look.process_requests e.
Proof. unfold process_requests. by destruct (strategy e). Qed.

Lemma visits_cycle (e : t) : visits (process_requests e).2 = plan e.
Proof. rewrite process_requests_look. apply visits_look. Qed.

Lemma plan_down (e : t) :
  direction e = Direction.DOWN → current_floor e ∉ Look.requests e →
  plan e = Z.opp <$> heap_below (current_floor e) (elements (Look.requests e)).
Proof.
  intros Hd Hout. unfold plan, plan_of.
  rewrite (decide_False (P := _ ∈ elements _)) by (by rewrite elem_of_elements).
  rewrite (decide_True (P := _ ∧ _)); [done|].
  split; [done|]. by rewrite elem_of_elements.
Qed.

Lemma gt_sorted_NoDup (l : list Z) : StronglySorted Z.gt l → NoDup l.
Proof.
  induction 1 as [|x l Hs IH Hx]; constructor; [|done].
  intros Hin. eapply Forall_forall in Hx; [|exact Hin]. lia.
Qed.

Lemma elem_of_plan (e : t) (f : Z) :
  f ∈ plan e
  ↔ f ∈ Look.requests e
    ∧ (direction e = Direction.DOWN → current_floor e ∉ Look.requests e →
       f < current_floor e).
Proof.
  unfold plan, plan_of. set (F := current_floor e).
  set (pending := elements (Look.requests e)).
  assert (Hp : ∀ x, x ∈ pending ↔ x ∈ Look.requests e)
    by (intros x; apply elem_of_elements).
  destruct (decide (F ∈ pending)) as [Hin|Hin];
    destruct (decide (direction e = Direction.DOWN ∧ F ∉ pending)) as [Hd|Hd];
    rewrite !elem_of_app, ?elem_of_heap_below, ?elem_of_heap_above,
      ?elem_of_nil, ?list_elem_of_singleton;
    rewrite Hp in Hin; rewrite Hp in Hd; rewrite ?Hp.
  - tauto.
  - split.
    + intros [->|[[? ?]|[? ?]]]; split; try done; tauto.
    + intros [Hf _]. destruct (Z.lt_trichotomy f F) as [?|[->|?]]; tauto.
  - split; [intros [[]|[[]|[? ?]]]; auto|].
    intros [Hf Hlt]. right. right. split; [done|]. apply Hlt; tauto.
  - split.
    + intros [[]|[[? ?]|[? ?]]]; split; try done; tauto.
    + intros [Hf _]. destruct (Z.lt_trichotomy f F) as [?|[Heq|?]]; [tauto| |tauto].
      subst f. tauto.
Qed.

Lemma NoDup_plan (e : t) : NoDup (plan e).
Proof.
  unfold plan, plan_of. set (F := current_floor e).
  set (pending := elements (Look.requests e)).
  assert (Hnd : NoDup pending) by apply NoDup_elements.
  apply NoDup_app. split; [|split].
  - destruct (decide (F ∈ pending)); [apply NoDup_singleton|apply NoDup_nil_2].
  - intros x Hx Hx'.
    assert (x = F) as ->.
    { destruct (decide (F ∈ pending)); [by apply list_elem_of_singleton|].
      by apply elem_of_nil in Hx. }
    apply elem_of_app in Hx' as [Hx'|Hx'].
    + destruct (decide (_ ∧ _)); [by apply elem_of_nil in Hx'|].
      apply elem_of_heap_above in Hx'. lia.
    + apply elem_of_heap_below in Hx'. lia.
  - apply NoDup_app. split; [|split].
    + destruct (decide (_ ∧ _)); [apply NoDup_nil_2|].
      by apply lt_sorted_NoDup, heap_above_sorted.
    + intros x Hx Hx'. destruct (decide (_ ∧ _)); [by apply elem_of_nil in Hx|].
      apply elem_of_heap_above in Hx. apply elem_of_heap_below in Hx'. lia.
    + by apply gt_sorted_NoDup, heap_below_sorted.
Qed.

End PlanFacts.

Section SchedulerExtras.
Import ElevatorCar.

(** X1: a car that starts a cycle with direction Down and has no pending
    request for the floor it stands at stops at the pending floors below
    it only, in descending order; the pending floors above it get no stop,
    and the store is emptied all the same. *)
Theorem look_down_leaves_above_unserved (e : ElevatorCar.t) :
  direction e = Direction.DOWN →
  current_floor e ∉ Look.requests e →
  let F := current_floor e in
  let stops := visits (process_requests e).2 in
  StronglySorted Z.gt stops
  ∧ (∀ f, f ∈ stops ↔ f ∈ Look.requests e ∧ f < F)
  ∧ Look.requests (process_requests e).1 = ∅.
Proof.
  intros Hd Hout F stops.
  assert (Hstops : stops = Z.opp <$> heap_below F (elements (Look.requests e))).
  { unfold stops. rewrite visits_cycle. by apply plan_down. }
  rewrite Hstops. split; [apply heap_below_sorted, NoDup_elements|].
  split; [apply heap_below_requests|].
  rewrite process_requests_look, look_process_requests_plan. reflexivity.
Qed.

(** X1, an instance: come down from floor 8 to floor 5, with cabin
    requests 7, 3 and 2, the car stops at 3 and 2 and never at 7. *)
Lemma look_down_leaves_above_unserved_witness :
  direction (press_all (come_down_to 8 5) [7; 3; 2]) = Direction.DOWN
  ∧ (current_floor (press_all (come_down_to 8 5) [7; 3; 2])
     ∉ Look.requests (press_all (come_down_to 8 5) [7; 3; 2]))
  ∧ visits (process_requests (press_all (come_down_to 8 5) [7; 3; 2])).2 = [3; 2]
  ∧ Look.requests (process_requests (press_all (come_down_to 8 5) [7; 3; 2])).1 = ∅.
Proof.
  assert (Hout : current_floor (press_all (come_down_to 8 5) [7; 3; 2])
                 ∉ Look.requests (press_all (come_down_to 8 5) [7; 3; 2])).
  { change (5 ∉ ({[7; 3; 2]} : gset Z)). floors. }
  split; [reflexivity|]. split; [exact Hout|]. split; [reflexivity|].
  apply (look_down_leaves_above_unserved (press_all (come_down_to 8 5) [7; 3; 2])
           eq_refl Hout).
Defined.

(** X2: whatever the state of the car, a cycle never stops twice at the
    same floor and never stops at a floor that is not pending. *)
Theorem cycle_stops_once_and_only_where_asked (e : ElevatorCar.t) :
  NoDup (visits (process_requests e).2)
  ∧ ∀ f, f ∈ visits (process_requests e).2 → f ∈ Look.requests e.
Proof.
  rewrite visits_cycle. split; [apply NoDup_plan|].
  intros f Hf. by apply elem_of_plan in Hf as [Hf _].
Qed.

(** X2, an instance: the car come down to floor 5 with cabin requests 7,
    3 and 2 stops at floor 3, which is pending. *)
Lemma cycle_stops_once_and_only_where_asked_witness :
  3 ∈ visits (process_requests (press_all (come_down_to 8 5) [7; 3; 2])).2
  ∧ 3 ∈ Look.requests (press_all (come_down_to 8 5) [7; 3; 2]).
Proof.
  assert (Hin : 3 ∈ visits (process_requests
                              (press_all (come_down_to 8 5) [7; 3; 2])).2).
  { change (3 ∈ [3; 2]). apply elem_of_cons. by left. }
  split; [exact Hin|].
  exact (proj2 (cycle_stops_once_and_only_where_asked
                  (press_all (come_down_to 8 5) [7; 3; 2])) 3 Hin).
Defined.

(** X3: when the car starts a cycle with a direction other than Down, or
    has a pending request for the floor it stands at, the cycle stops at
    every pending floor, exactly once each. *)
Theorem cycle_serves_every_request (e : ElevatorCar.t) :
  direction e ≠ Direction.DOWN ∨ current_floor e ∈ Look.requests e →
  (∀ f, f ∈ visits (process_requests e).2 ↔ f ∈ Look.requests e)
  ∧ visits (process_requests e).2 ≡ₚ elements (Look.requests e).
Proof.
  intros Hok. rewrite visits_cycle.
  assert (Hmem : ∀ f, f ∈ plan e ↔ f ∈ Look.requests e).
  { intros f. rewrite elem_of_plan. split; [tauto|].
    intros Hf. split; [done|]. intros Hd Hout. tauto. }
  split; [exact Hmem|].
  apply NoDup_Permutation; [apply NoDup_plan|apply NoDup_elements|].
  intros f. by rewrite Hmem, elem_of_elements.
Qed.

(** X3, an instance: a car come down to floor 5 with cabin requests 5, 7
    and 3 stops at all three. *)
Lemma cycle_serves_every_request_witness :
  (direction (press_all (come_down_to 8 5) [5; 7; 3]) ≠ Direction.DOWN
   ∨ current_floor (press_all (come_down_to 8 5) [5; 7; 3])
     ∈ Look.requests (press_all (come_down_to 8 5) [5; 7; 3]))
  ∧ visits (process_requests (press_all (come_down_to 8 5) [5; 7; 3])).2
    ≡ₚ elements (Look.requests (press_all (come_down_to 8 5) [5; 7; 3])).
Proof.
  assert (Hin : current_floor (press_all (come_down_to 8 5) [5; 7; 3])
                ∈ Look.requests (press_all (come_down_to 8 5) [5; 7; 3])).
  { change (5 ∈ ({[5; 7; 3]} : gset Z)).
    rewrite !elem_of_union, !elem_of_singleton. lia. }
  split; [by right|].
  apply (cycle_serves_every_request (press_all (come_down_to 8 5) [5; 7; 3])).
  by right.
Defined.

(** X4: the cycle does not depend on the order in which the set of
    pending floors is iterated: run on any duplicate-free listing of the
    pending floors it ends in the same state with the same output. *)
Theorem cycle_ignores_iteration_order (pending : list Z) (e : ElevatorCar.t) :
  NoDup pending →
  (∀ f, f ∈ pending ↔ f ∈ Look.requests e) →
  Look.process_floors pending e = process_requests e.
Proof.
  intros Hnd Heq. rewrite process_requests_look.
  by apply process_floors_any_order.
Qed.

(** X4, an instance: the pending floors 12, 15 and 9 listed as 9, 12, 15. *)
Lemma cycle_ignores_iteration_order_witness :
  NoDup [9; 12; 15]
  ∧ (∀ f, f ∈ [9; 12; 15] ↔ f ∈ Look.requests (press_all (gone_up_to 10) [12; 15; 9]))
  ∧ Look.process_floors [9; 12; 15] (press_all (gone_up_to 10) [12; 15; 9])
    = process_requests (press_all (gone_up_to 10) [12; 15; 9]).
Proof.
  assert (Hnd : NoDup [9; 12; 15]) by (repeat constructor; floors).
  assert (Heq : ∀ f, f ∈ [9; 12; 15]
                     ↔ f ∈ Look.requests (press_all (gone_up_to 10) [12; 15; 9])).
  { intros f. change (f ∈ [9; 12; 15] ↔ f ∈ ({[12; 15; 9]} : gset Z)). floors. }
  split; [exact Hnd|]. split; [exact Heq|].
  exact (cycle_ignores_iteration_order [9; 12; 15]
           (press_all (gone_up_to 10) [12; 15; 9]) Hnd Heq).
Defined.

End SchedulerExtras.

Section TravelFacts.
Import ElevatorCar.

Lemma traversals_move_to_floor (e : t) (q : Z) :
  traversals (move_to_floor e q).2
  = range (current_floor e + (if q >? current_floor e then 1 else -1))
          (q + (if q >? current_floor e then 1 else -1))
          (if q >? current_floor e then 1 else -1).
Proof.
  unfold move_to_floor. cbn [snd].
  rewrite traversals_app, traversals_notify, app_nil_r.
  apply traversals_show_movement.
Qed.

Lemma elem_of_traversals_move (e : t) (q f : Z) :
  f ∈ traversals (move_to_floor e q).2
  ↔ current_floor e < f ≤ q ∨ q ≤ f < current_floor e.
Proof.
  rewrite traversals_move_to_floor, Z.gtb_ltb.
  destruct (Z.ltb_spec (current_floor e) q).
  - rewrite elem_of_range_up. lia.
  - rewrite elem_of_range_down. lia.
Qed.

Lemma run_moves_frame (l : list Z) (e : t) :
  id (run_moves l e).1 = id e
  ∧ display (run_moves l e).1 = display e
  ∧ logger (run_moves l e).1 = logger e
  ∧ strategy (run_moves l e).1 = strategy e
  ∧ observers (run_moves l e).1 = observers e
  ∧ internal_requests (run_moves l e).1 = internal_requests e
  ∧ external_requests (run_moves l e).1 = external_requests e.
Proof.
  revert e. induction l as [|f l IH]; intros e; [done|].
  rewrite run_moves_cons. cbn [fst].
  destruct (IH (move_to_floor e f).1) as (H1 & H2 & H3 & H4 & H5 & H6 & H7).
  by rewrite H1, H2, H3, H4, H5, H6, H7.
Qed.

Lemma run_moves_current_floor (l : list Z) (e : t) :
  current_floor (run_moves l e).1 = default (current_floor e) (last l).
Proof.
  revert e. induction l as [|f l IH]; intros e; [done|].
  rewrite run_moves_cons. cbn [fst]. rewrite IH, move_to_floor_current.
  destruct l as [|z l]; [done|].
  change (last (f :: z :: l)) with (last (z :: l)).
  destruct (last (z :: l)) eqn:Hlast; [done|].
  by apply last_None in Hlast.
Qed.

Lemma run_moves_span (lo hi : Z) (l : list Z) (e : t) :
  lo ≤ current_floor e ≤ hi →
  (∀ f, f ∈ l → lo ≤ f ≤ hi) →
  ∀ f, f ∈ traversals (run_moves l e).2 → lo ≤ f ≤ hi.
Proof.
  revert e. induction l as [|q l IH]; intros e He Hl f Hf.
  - by apply elem_of_nil in Hf.
  - rewrite run_moves_cons in Hf. cbn [snd] in Hf.
    rewrite traversals_app in Hf. apply elem_of_app in Hf as [Hf|Hf].
    + apply elem_of_traversals_move in Hf.
      assert (lo ≤ q ≤ hi) by (apply Hl, elem_of_cons; by left). lia.
    + apply (IH (move_to_floor e q).1); [| |done].
      * rewrite move_to_floor_current. apply Hl, elem_of_cons. by left.
      * intros g Hg. apply Hl, elem_of_cons. by right.
Qed.

Lemma finish_finish (e : t) : finish (finish e) = finish e.
Proof. done. Qed.

Lemma requests_finish (e : t) : Look.requests (finish e) = ∅.
Proof. done. Qed.

Lemma plan_of_same_motion (l : list Z) (e1 e2 : t) :
  current_floor e1 = current_floor e2 → direction e1 = direction e2 →
  plan_of l e1 = plan_of l e2.
Proof. intros Hf Hd. unfold plan_of. by rewrite Hf, Hd. Qed.

End TravelFacts.

Section TravelExtras.
Import ElevatorCar.

(** X5: a move from floor p to floor q reports exactly |q - p| traversed
    floors: none when the car is already at q. *)
Theorem move_reports_distance (e : ElevatorCar.t) (q : Z) :
  length (traversals (move_to_floor e q).2) = Z.to_nat (Z.abs (q - current_floor e)).
Proof.
  rewrite traversals_move_to_floor. unfold range.
  rewrite length_map, length_seq, Z.gtb_ltb.
  destruct (Z.ltb_spec (current_floor e) q).
  - rewrite range_len_up. lia.
  - rewrite range_len_down. lia.
Qed.

(** X6: during a cycle the car never leaves the span of its starting
    floor and its pending floors: every floor it reports on the way, and
    the floor it ends at, lies between any bounds that hold for them. *)
Theorem cycle_stays_within_span (e : ElevatorCar.t) (lo hi : Z) :
  lo ≤ current_floor e ≤ hi →
  (∀ f, f ∈ Look.requests e → lo ≤ f ≤ hi) →
  (∀ f, f ∈ traversals (process_requests e).2 → lo ≤ f ≤ hi)
  ∧ lo ≤ current_floor (process_requests e).1 ≤ hi.
Proof.
  intros He Hreq. rewrite process_requests_look, look_process_requests_plan.
  cbn [fst snd finish current_floor].
  assert (Hplan : ∀ f, f ∈ plan e → lo ≤ f ≤ hi).
  { intros f Hf. apply Hreq. by apply elem_of_plan in Hf as [Hf _]. }
  split; [by apply run_moves_span|].
  rewrite run_moves_current_floor.
  destruct (last (plan e)) as [f|] eqn:Hlast; [|done].
  apply Hplan. simpl. by apply last_Some_elem_of.
Qed.

(** X6, an instance: from floor 10 with pending floors 12, 15 and 9 the
    car stays between floors 9 and 15. *)
Lemma cycle_stays_within_span_witness :
  9 ≤ current_floor (press_all (gone_up_to 10) [12; 15; 9]) ≤ 15
  ∧ (∀ f, f ∈ Look.requests (press_all (gone_up_to 10) [12; 15; 9]) → 9 ≤ f ≤ 15)
  ∧ (∀ f, f ∈ traversals (process_requests (press_all (gone_up_to 10) [12; 15; 9])).2 →
          9 ≤ f ≤ 15).
Proof.
  assert (He : 9 ≤ current_floor (press_all (gone_up_to 10) [12; 15; 9]) ≤ 15)
    by (change (9 ≤ 10 ≤ 15); lia).
  assert (Hreq : ∀ f, f ∈ Look.requests (press_all (gone_up_to 10) [12; 15; 9]) →
                      9 ≤ f ≤ 15).
  { intros f. change (f ∈ ({[12; 15; 9]} : gset Z) → 9 ≤ f ≤ 15).
    rewrite !elem_of_union, !elem_of_singleton. lia. }
  split; [exact He|]. split; [exact Hreq|].
  exact (proj1 (cycle_stays_within_span (press_all (gone_up_to 10) [12; 15; 9])
                  9 15 He Hreq)).
Defined.

(** X7: a cycle leaves the car at the floor of its last stop, or where it
    was when it made no stop, and changes nothing of the car but its
    floor, status, direction and request store. *)
Theorem cycle_ends_at_last_stop (e : ElevatorCar.t) :
  current_floor (process_requests e).1
  = default (current_floor e) (last (visits (process_requests e).2))
  ∧ id (process_requests e).1 = id e
  ∧ display (process_requests e).1 = display e
  ∧ logger (process_requests e).1 = logger e
  ∧ strategy (process_requests e).1 = strategy e
  ∧ observers (process_requests e).1 = observers e.
Proof.
  rewrite visits_cycle, process_requests_look, look_process_requests_plan.
  cbn [fst finish id current_floor display logger strategy observers].
  destruct (run_moves_frame (plan e) e) as (H1 & H2 & H3 & H4 & H5 & _).
  split; [apply run_moves_current_floor|]. done.
Qed.

(** X8: a second cycle run straight after a cycle prints nothing and
    leaves the car as the first cycle left it. *)
Theorem second_cycle_is_silent (e : ElevatorCar.t) :
  process_requests (process_requests e).1 = ((process_requests e).1, []).
Proof.
  rewrite !process_requests_look, (look_process_requests_plan e). cbn [fst].
  set (x := (run_moves (plan e) e).1).
  rewrite look_process_requests_plan.
  assert (Hplan : plan (finish x) = []).
  { unfold plan. rewrite requests_finish, elements_empty. reflexivity. }
  rewrite Hplan. reflexivity.
Qed.

(** X9: the scheduler reads the floors of the hall calls and never their
    directions: replacing the external-request mapping by any mapping
    with the same floors gives the same cycle, output and final state. *)
Theorem cycle_ignores_call_directions (e : ElevatorCar.t) (m : gmap Z Direction.t) :
  dom m = dom (external_requests e) →
  process_requests (set_external_requests e m) = process_requests e.
Proof.
  intros Hdom. set (e' := set_external_requests e m).
  assert (Hreq : Look.requests e' = Look.requests e).
  { apply set_eq. intros f. rewrite !elem_of_requests. unfold e'. simpl.
    by rewrite <- !elem_of_dom, Hdom. }
  assert (Hplan : plan e' = plan e).
  { unfold plan. rewrite Hreq. by apply plan_of_same_motion. }
  rewrite !process_requests_look, !look_process_requests_plan, Hplan.
  destruct (same_cabin_run_moves (plan e) e' e) as [Htr Hcab]; [done|].
  by rewrite Htr, (same_cabin_finish _ _ Hcab).
Qed.

(** X9, an instance: the hall call at floor 3 recorded going Up, read as
    going Down. *)
Lemma cycle_ignores_call_directions_witness :
  dom ({[3 := Direction.DOWN]} : gmap Z Direction.t)
  = dom (external_requests
           (add_external_request (press_all (gone_up_to 5) [7]) 3 Direction.UP))
  ∧ process_requests
      (set_external_requests
         (add_external_request (press_all (gone_up_to 5) [7]) 3 Direction.UP)
         {[3 := Direction.DOWN]})
    = process_requests
        (add_external_request (press_all (gone_up_to 5) [7]) 3 Direction.UP).
Proof.
  split; [reflexivity|].
  apply (cycle_ignores_call_directions
           (add_external_request (press_all (gone_up_to 5) [7]) 3 Direction.UP)
           {[3 := Direction.DOWN]}).
  reflexivity.
Defined.

End TravelExtras.

(** * Further properties of the car *)

Section CarFacts.
Import ElevatorCar.

Lemma requests_press (e : t) (f : Z) :
  Look.requests (press_internal_button e f) = {[f]} ∪ Look.requests e.
Proof.
  apply set_eq. intros g.
  rewrite elem_of_union, elem_of_singleton, !elem_of_requests.
  unfold press_internal_button. case_bool_decide as Hf; simpl.
  - split; [tauto|]. intros [->|?]; tauto.
  - rewrite elem_of_app, list_elem_of_singleton. tauto.
Qed.

Lemma requests_add (e : t) (f : Z) (d : Direction.t) :
  Look.requests (add_external_request e f d) = {[f]} ∪ Look.requests e.
Proof.
  apply set_eq. intros g.
  rewrite elem_of_union, elem_of_singleton, !elem_of_requests.
  unfold add_external_request.
  destruct (external_requests e !! f) as [d0|] eqn:Hf; simpl.
  - split; [tauto|]. intros [->|?]; [|tauto]. right. by rewrite Hf.
  - rewrite lookup_insert. destruct (decide (f = g)) as [->|Hne].
    + split; [tauto|]. intros _. right. by eexists.
    + split; [tauto|]. intros [?|?]; [congruence|tauto].
Qed.

Lemma display_lines_of_updates (os : list ElevatorObserver) (j : option Z) (f : Z)
    (d : Direction.t) :
  DisplayUpdated j f d ∈ concat (map ElevatorObserver_update os) →
  DisplayObserver (Display.mk j f d) ∈ os.
Proof.
  induction os as [|o os IH]; simpl; intros Hin.
  - by apply elem_of_nil in Hin.
  - apply elem_of_app in Hin as [Hin|Hin].
    + destruct o as [[j' f' d']|l]; simpl in Hin.
      * apply list_elem_of_singleton in Hin. injection Hin as -> -> ->.
        apply elem_of_cons. by left.
      * apply list_elem_of_singleton in Hin. discriminate Hin.
    + apply elem_of_cons. right. by apply IH.
Qed.

Lemma display_lines_of_move (e : t) (q : Z) (j : option Z) (f : Z) (d : Direction.t) :
  DisplayUpdated j f d ∈ (move_to_floor e q).2 →
  DisplayObserver (Display.mk j f d) ∈ observers e.
Proof.
  unfold move_to_floor, Display.show_movement, notify. cbn [snd observers].
  intros Hin. apply elem_of_app in Hin as [Hin|Hin].
  - apply list_elem_of_fmap in Hin as (g & Hg & _). discriminate Hg.
  - apply elem_of_cons in Hin as [Hin|Hin]; [discriminate Hin|].
    by apply display_lines_of_updates.
Qed.

Lemma display_lines_of_run (l : list Z) (e : t) (j : option Z) (f : Z) (d : Direction.t) :
  DisplayUpdated j f d ∈ (run_moves l e).2 →
  DisplayObserver (Display.mk j f d) ∈ observers e.
Proof.
  revert e. induction l as [|q l IH]; intros e Hin.
  - by apply elem_of_nil in Hin.
  - rewrite run_moves_cons in Hin. cbn [snd] in Hin.
    apply elem_of_app in Hin as [Hin|Hin].
    + by apply (display_lines_of_move e q).
    + apply IH in Hin. exact Hin.
Qed.

(** What every car made by the public methods satisfies. *)
Lemma built_inv (e : t) :
  built e →
  status e ≠ Status.MOVING
  ∧ (status e = Status.IDLE → direction e = Direction.IDLE)
  ∧ store_ok e
  ∧ display e = Display.init (Some (id e))
  ∧ observers e = [DisplayObserver (Display.init (Some (id e)));
                   LoggerObserver (Logger.init (Some (id e)))].
Proof.
  induction 1 as [i s|e f Hb IH|e f d Hb IH|e f Hb IH|e Hb IH].
  - repeat split; try done. apply NoDup_nil_2.
  - destruct IH as (H1 & H2 & H3 & H4 & H5).
    split; [|split; [|split; [by apply store_ok_press|]]];
      unfold press_internal_button; by case_bool_decide.
  - destruct IH as (H1 & H2 & H3 & H4 & H5).
    split; [|split; [|split; [by apply store_ok_add|]]];
      unfold add_external_request; by destruct (external_requests e !! f).
  - destruct IH as (H1 & H2 & H3 & H4 & H5).
    repeat split; try done.
  - destruct IH as (H1 & H2 & H3 & H4 & H5).
    rewrite process_requests_look, look_process_requests_plan. cbn [fst].
    destruct (run_moves_frame (plan e) e) as (F1 & F2 & _ & _ & F5 & _).
    unfold finish. cbn [status direction store_ok internal_requests display
                        observers id].
    rewrite F1, F2, F5.
    repeat split; try done. apply NoDup_nil_2.
Qed.

End CarFacts.

Section CarExtras.
Import ElevatorCar.

(** X10: a cabin press and a hall call each add their floor, and nothing
    else, to the floors pending for the next cycle; a cabin press leaves
    the hall calls alone, a hall call leaves the cabin requests alone,
    and the two can be made in either order. *)
Theorem requests_grow_by_the_floor (e : ElevatorCar.t) (f g : Z) (d : Direction.t) :
  Look.requests (press_internal_button e f) = {[f]} ∪ Look.requests e
  ∧ Look.requests (add_external_request e g d) = {[g]} ∪ Look.requests e
  ∧ external_requests (press_internal_button e f) = external_requests e
  ∧ internal_requests (add_external_request e g d) = internal_requests e
  ∧ press_internal_button (add_external_request e g d) f
    = add_external_request (press_internal_button e f) g d.
Proof.
  split; [apply requests_press|]. split; [apply requests_add|].
  unfold press_internal_button, add_external_request.
  split; [by case_bool_decide|].
  split; [by destruct (external_requests e !! g)|].
  destruct (external_requests e !! g) as [d0|] eqn:Hg; simpl;
    case_bool_decide; simpl; by rewrite ?Hg.
Qed.

(** X11: the display of a car made by the public methods is never told
    where the car is: every display line of a cycle, and of a single
    move, shows the car's id with floor 0 and direction Idle, whatever
    floors the car stops at. *)
Theorem display_never_follows_the_car (e : ElevatorCar.t) :
  built e →
  (∀ j f d, DisplayUpdated j f d ∈ (process_requests e).2 →
            j = Some (id e) ∧ f = 0 ∧ d = Direction.IDLE)
  ∧ (∀ q j f d, DisplayUpdated j f d ∈ (move_to_floor e q).2 →
                j = Some (id e) ∧ f = 0 ∧ d = Direction.IDLE).
Proof.
  intros Hb. destruct (built_inv e Hb) as (_ & _ & _ & _ & Hobs).
  assert (Hown : ∀ j f d, DisplayObserver (Display.mk j f d) ∈ observers e →
                          j = Some (id e) ∧ f = 0 ∧ d = Direction.IDLE).
  { intros j f d Hin. rewrite Hobs in Hin.
    apply elem_of_cons in Hin as [Hin|Hin].
    - by injection Hin as -> -> ->.
    - apply list_elem_of_singleton in Hin. discriminate Hin. }
  split.
  - intros j f d Hin. apply Hown.
    rewrite process_requests_look, look_process_requests_plan in Hin.
    by apply (display_lines_of_run (plan e)).
  - intros q j f d Hin. apply Hown. by apply (display_lines_of_move e q).
Qed.

(** X11, an instance: a car gone up to floor 10 with cabin requests 12
    and 9; its first display line after the stop at 12 shows floor 0. *)
Lemma display_never_follows_the_car_witness :
  built (press_all (gone_up_to 10) [12; 9])
  ∧ DisplayUpdated (Some 0) 0 Direction.IDLE
    ∈ (process_requests (press_all (gone_up_to 10) [12; 9])).2
  ∧ ∀ j f d, DisplayUpdated j f d
             ∈ (process_requests (press_all (gone_up_to 10) [12; 9])).2 →
             j = Some 0 ∧ f = 0 ∧ d = Direction.IDLE.
Proof.
  assert (Hb : built (press_all (gone_up_to 10) [12; 9])).
  { apply built_press, built_press, built_move, built_init. }
  split; [exact Hb|]. split.
  - apply list_elem_of_In. vm_compute. tauto.
  - exact (proj1 (display_never_follows_the_car _ Hb)).
Defined.

(** X12: an observer attached to a car is notified after the observers
    already there: every later move prints what it printed before,
    followed by the new observer's line, and moves the car as before. *)
Theorem attached_observer_is_notified_last (e : ElevatorCar.t) (o : ElevatorObserver)
    (q : Z) :
  (move_to_floor (attach e o) q).2 = (move_to_floor e q).2 ++ ElevatorObserver_update o
  ∧ (move_to_floor (attach e o) q).1 = attach (move_to_floor e q).1 o.
Proof.
  unfold move_to_floor, attach, notify. cbn [fst snd id current_floor direction
    observers display status internal_requests external_requests logger strategy].
  split; [|done].
  rewrite map_app, concat_app. simpl. rewrite app_nil_r.
  by rewrite app_comm_cons, !(assoc_L (++)).
Qed.

(** X13: every car made from a new car by pressing cabin buttons, adding
    hall calls, moving and running cycles never has status Moving, has
    direction Idle whenever its status is Idle, and holds no cabin floor
    twice. *)
Theorem built_car_invariants (e : ElevatorCar.t) :
  built e →
  status e ≠ Status.MOVING
  ∧ (status e = Status.IDLE → direction e = Direction.IDLE)
  ∧ store_ok e.
Proof.
  intros Hb. destruct (built_inv e Hb) as (H1 & H2 & H3 & _). done.
Qed.

(** X13, an instance: a car gone up to floor 5 with cabin button 7
    pressed twice. *)
Lemma built_car_invariants_witness :
  built (press_all (gone_up_to 5) [7; 7])
  ∧ status (press_all (gone_up_to 5) [7; 7]) = Status.STOPPED
  ∧ internal_requests (press_all (gone_up_to 5) [7; 7]) = [7]
  ∧ store_ok (press_all (gone_up_to 5) [7; 7]).
Proof.
  assert (Hb : built (press_all (gone_up_to 5) [7; 7])).
  { apply built_press, built_press, built_move, built_init. }
  split; [exact Hb|]. split; [reflexivity|]. split; [reflexivity|].
  exact (proj2 (proj2 (built_car_invariants _ Hb))).
Defined.

End CarExtras.

(** * Further properties of dispatch and of the building *)

Section RouterFacts.

Lemma add_external_request_twice (c : ElevatorCar.t) (f : Z) (d : Direction.t) :
  ElevatorCar.add_external_request (ElevatorCar.add_external_request c f d) f d
  = ElevatorCar.add_external_request c f d.
Proof.
  unfold ElevatorCar.add_external_request at 1.
  destruct (ElevatorCar.external_requests
              (ElevatorCar.add_external_request c f d) !! f) as [d0|] eqn:Hf; [done|].
  exfalso. pose proof (add_external_request_pending c f d) as Hin.
  apply elem_of_requests in Hin as [Hin|[d1 Hd1]]; [|congruence].
  unfold ElevatorCar.add_external_request in Hf.
  destruct (ElevatorCar.external_requests c !! f) as [d1|] eqn:Hc.
  - congruence.
  - simpl in Hf. rewrite lookup_insert_eq in Hf. discriminate Hf.
Qed.

Lemma assign_elevator_routed (s : ExternalButtonDispatcherStrategy)
    (m : gmap Z ElevatorCar.t) (f : Z) (d : Direction.t) :
  assign_elevator s m f d = Some (routed s f d m).
Proof. apply assign_elevator_alter. Qed.

Lemma lookup_routed (s : ExternalButtonDispatcherStrategy) (f : Z) (d : Direction.t)
    (m : gmap Z ElevatorCar.t) (i : Z) :
  routed s f d m !! i
  = if decide (i = target s ∧ eligible s f)
    then (λ c, ElevatorCar.add_external_request c f d) <$> m !! i
    else m !! i.
Proof.
  unfold routed. destruct (decide (eligible s f)) as [He|He].
  - rewrite lookup_alter. destruct (decide (target s = i)) as [<-|Hne].
    + by rewrite decide_True.
    + rewrite decide_False; [done|]. intros [-> _]. done.
  - rewrite decide_False; [done|]. tauto.
Qed.

Lemma dom_routed (s : ExternalButtonDispatcherStrategy) (f : Z) (d : Direction.t)
    (m : gmap Z ElevatorCar.t) :
  dom (routed s f d m) = dom m.
Proof. unfold routed. case_decide; [apply dom_alter_L|done]. Qed.

(** Any list of policies: the loop returns, keeps the set of cars, and
    changes a car at most by adding the hall call. *)
Lemma for_strategies_frame (strategies : list ExternalButtonDispatcherStrategy)
    (m : gmap Z ElevatorCar.t) (f : Z) (d : Direction.t) :
  ∃ m' : gmap Z ElevatorCar.t,
    ElevatorController.for_strategies strategies m f d = Some m'
    ∧ dom m' = dom m
    ∧ ∀ k c, m !! k = Some c →
        m' !! k = Some c ∨ m' !! k = Some (ElevatorCar.add_external_request c f d).
Proof.
  revert m. induction strategies as [|s rest IH]; intros m.
  - exists m. split; [done|]. split; [done|]. intros k c Hc. by left.
  - cbn [ElevatorController.for_strategies].
    rewrite assign_elevator_routed. cbn [mbind option_bind].
    destruct (IH (routed s f d m)) as (m' & Hrun & Hdom & Hcars).
    exists m'. split; [exact Hrun|]. split; [by rewrite Hdom, dom_routed|].
    intros k c Hc.
    assert (Hk : routed s f d m !! k = Some c
                 ∨ routed s f d m !! k = Some (ElevatorCar.add_external_request c f d)).
    { rewrite lookup_routed, Hc. case_decide; [by right|by left]. }
    destruct Hk as [Hk|Hk]; destruct (Hcars _ _ Hk) as [Hk'|Hk']; auto.
    rewrite add_external_request_twice in Hk'. auto.
Qed.

Lemma handle_init_routed (m : gmap Z ElevatorCar.t) (fixed_floors : list Z)
    (f : Z) (d : Direction.t) :
  ElevatorController.handle_external_request
    (ElevatorController.init m fixed_floors) f d
  = Some (ElevatorController.init
            (routed (FixedDispatcher fixed_floors) f d
               (routed EvenDispatcher f d (routed OddDispatcher f d m)))
            fixed_floors).
Proof.
  unfold ElevatorController.handle_external_request, ElevatorController.init.
  cbn [ElevatorController.strategies ElevatorController.elevators
       ElevatorController.for_strategies].
  rewrite assign_elevator_routed. cbn [mbind option_bind].
  rewrite assign_elevator_routed. cbn [mbind option_bind].
  rewrite assign_elevator_routed. reflexivity.
Qed.

End RouterFacts.

Section RouterExtras.

(** X14: whatever its list of policies and its cars, the controller
    handles a hall call without an error, keeps its policies, neither
    adds nor removes a car, and leaves each car either as it was or with
    just this hall call added to it. *)
Theorem dispatch_only_adds_the_call (ctrl : ElevatorController.t) (f : Z)
    (d : Direction.t) :
  ∃ ctrl' : ElevatorController.t,
    ElevatorController.handle_external_request ctrl f d = Some ctrl'
    ∧ ElevatorController.strategies ctrl' = ElevatorController.strategies ctrl
    ∧ dom (ElevatorController.elevators ctrl') = dom (ElevatorController.elevators ctrl)
    ∧ ∀ k c, ElevatorController.elevators ctrl !! k = Some c →
        ElevatorController.elevators ctrl' !! k = Some c
        ∨ ElevatorController.elevators ctrl' !! k
          = Some (ElevatorCar.add_external_request c f d).
Proof.
  destruct (for_strategies_frame (ElevatorController.strategies ctrl)
              (ElevatorController.elevators ctrl) f d) as (m' & Hrun & Hdom & Hcars).
  exists (ElevatorController.mk m' (ElevatorController.strategies ctrl)).
  unfold ElevatorController.handle_external_request. rewrite Hrun.
  split; [done|]. split; [done|]. split; [exact Hdom|exact Hcars].
Qed.

(** X14, an instance: the call at floor 5 in the building of the usage
    block leaves car 1 as it was. *)
Lemma dispatch_only_adds_the_call_witness :
  ElevatorController.elevators (Building.controller 3 [0; 5; 9]) !! 1
  = Some (ElevatorCar.init 1 None)
  ∧ ∃ ctrl' : ElevatorController.t,
      ElevatorController.handle_external_request
        (Building.controller 3 [0; 5; 9]) 5 Direction.DOWN = Some ctrl'
      ∧ (ElevatorController.elevators ctrl' !! 1 = Some (ElevatorCar.init 1 None)
         ∨ ElevatorController.elevators ctrl' !! 1
           = Some (ElevatorCar.add_external_request
                     (ElevatorCar.init 1 None) 5 Direction.DOWN)).
Proof.
  split; [reflexivity|].
  destruct (dispatch_only_adds_the_call (Building.controller 3 [0; 5; 9])
              5 Direction.DOWN) as (ctrl' & Hrun & _ & _ & Hcars).
  exists ctrl'. split; [exact Hrun|].
  exact (Hcars 1 (ElevatorCar.init 1 None) eq_refl).
Defined.

(** X15: in a controller that has the cars 0 and 1, no hall call is lost:
    after it is handled it is pending in car 0 when the floor is odd and
    in car 1 when the floor is even, and never in both by parity. *)
Theorem every_call_reaches_car_0_or_1 (m : gmap Z ElevatorCar.t)
    (fixed_floors : list Z) (f : Z) (d : Direction.t) (c0 c1 : ElevatorCar.t) :
  m !! 0 = Some c0 → m !! 1 = Some c1 →
  ∃ m' : gmap Z ElevatorCar.t,
    ElevatorController.handle_external_request
      (ElevatorController.init m fixed_floors) f d
    = Some (ElevatorController.init m' fixed_floors)
    ∧ ((f mod 2 = 1
        ∧ m' !! 0 = Some (ElevatorCar.add_external_request c0 f d)
        ∧ m' !! 1 = Some c1)
       ∨ (f mod 2 = 0
          ∧ m' !! 0 = Some c0
          ∧ m' !! 1 = Some (ElevatorCar.add_external_request c1 f d)))
    ∧ ∃ k c', (k = 0 ∨ k = 1) ∧ m' !! k = Some c' ∧ f ∈ Look.requests c'.
Proof.
  intros Hc0 Hc1. eexists. split; [apply handle_init_routed|].
  assert (H0 : routed (FixedDispatcher fixed_floors) f d
                 (routed EvenDispatcher f d (routed OddDispatcher f d m)) !! 0
               = if decide (f mod 2 = 1)
                 then Some (ElevatorCar.add_external_request c0 f d) else Some c0).
  { rewrite !lookup_routed, Hc0. cbn [target eligible].
    rewrite (decide_False (P := 0 = 2 ∧ _)), (decide_False (P := 0 = 1 ∧ _))
      by (intros [? _]; done).
    destruct (decide (f mod 2 = 1)).
    - by rewrite decide_True.
    - rewrite decide_False; [done|tauto]. }
  assert (H1 : routed (FixedDispatcher fixed_floors) f d
                 (routed EvenDispatcher f d (routed OddDispatcher f d m)) !! 1
               = if decide (f mod 2 = 0)
                 then Some (ElevatorCar.add_external_request c1 f d) else Some c1).
  { rewrite !lookup_routed, Hc1. cbn [target eligible].
    rewrite (decide_False (P := 1 = 2 ∧ _)), (decide_False (P := 1 = 0 ∧ _))
      by (intros [? _]; done).
    destruct (decide (f mod 2 = 0)).
    - by rewrite decide_True.
    - rewrite decide_False; [done|tauto]. }
  rewrite H0, H1.
  assert (Hpar : f mod 2 = 0 ∨ f mod 2 = 1)
    by (pose proof (Z.mod_pos_bound f 2); lia).
  destruct Hpar as [Hev|Hodd].
  - rewrite (decide_False (P := f mod 2 = 1)) by lia.
    rewrite (decide_True (P := f mod 2 = 0)) by done.
    split; [by right|].
    exists 1, (ElevatorCar.add_external_request c1 f d).
    split; [by right|]. split; [|apply add_external_request_pending].
    rewrite H1. by rewrite decide_True.
  - rewrite (decide_True (P := f mod 2 = 1)) by done.
    rewrite (decide_False (P := f mod 2 = 0)) by lia.
    split; [by left|].
    exists 0, (ElevatorCar.add_external_request c0 f d).
    split; [by left|]. split; [|apply add_external_request_pending].
    rewrite H0. by rewrite decide_True.
Qed.

(** X15, an instance: the call at floor 4 in the building of the usage
    block is pending in car 1. *)
Lemma every_call_reaches_car_0_or_1_witness :
  Building.make_elevators 3 !! 0 = Some (ElevatorCar.init 0 None)
  ∧ Building.make_elevators 3 !! 1 = Some (ElevatorCar.init 1 None)
  ∧ ∃ m' : gmap Z ElevatorCar.t,
      ElevatorController.handle_external_request
        (Building.controller 3 [0; 5; 9]) 4 Direction.UP
      = Some (ElevatorController.init m' [0; 5; 9])
      ∧ m' !! 1 = Some (ElevatorCar.add_external_request
                          (ElevatorCar.init 1 None) 4 Direction.UP).
Proof.
  split; [reflexivity|]. split; [reflexivity|].
  destruct (every_call_reaches_car_0_or_1 (Building.make_elevators 3) [0; 5; 9]
              4 Direction.UP (ElevatorCar.init 0 None) (ElevatorCar.init 1 None)
              eq_refl eq_refl) as (m' & Hrun & Hpar & _).
  exists m'. split; [exact Hrun|].
  destruct Hpar as [(Hodd & _)|(_ & _ & H1)]; [discriminate Hodd|exact H1].
Defined.

End RouterExtras.

Section BuildingFacts.

Lemma range_from_zero (n : Z) :
  range 0 n 1 = (λ i : nat, Z.of_nat i) <$> seq 0 (Z.to_nat n).
Proof.
  unfold range. rewrite range_len_up, Z.sub_0_r.
  apply list_fmap_ext. intros _ i _. lia.
Qed.

Lemma make_elevators_lookup (n i : Z) :
  Building.make_elevators n !! i
  = if decide (0 ≤ i < n) then Some (ElevatorCar.init i None) else None.
Proof.
  unfold Building.make_elevators.
  set (l := map (λ i, (i, ElevatorCar.init i None)) (range 0 n 1)).
  assert (Hkeys : l.*1 = range 0 n 1).
  { unfold l. rewrite <- list_fmap_compose. apply list_fmap_id. }
  case_decide as Hi.
  - apply elem_of_list_to_map.
    + rewrite Hkeys. apply lt_sorted_NoDup, range_up_sorted.
    + apply list_elem_of_fmap. exists i. split; [done|].
      apply elem_of_range_up. lia.
  - apply not_elem_of_list_to_map. rewrite Hkeys, elem_of_range_up. lia.
Qed.

Lemma ids_ok_of_dom (b : Building.t) :
  NoDup (Building.ids b) →
  dom (Building.elevators b) = list_to_set (Building.ids b) →
  ids_ok b.
Proof.
  intros Hnd Hdom. split; [done|]. intros k.
  by rewrite <- elem_of_dom, Hdom, elem_of_list_to_set.
Qed.

Lemma for_elevators_cons (k : Z) (ids : list Z) (m : gmap Z ElevatorCar.t) :
  Building.for_elevators (k :: ids) m
  = match m !! k with
    | Some c =>
        ((Building.for_elevators ids (<[k := (process_requests c).1]> m)).1,
         (process_requests c).2
         ++ (Building.for_elevators ids (<[k := (process_requests c).1]> m)).2)
    | None => Building.for_elevators ids m
    end.
Proof.
  cbn [Building.for_elevators]. destruct (m !! k) as [c|]; [|done].
  destruct (process_requests c) as [c' tr]. cbn [fst snd].
  by destruct (Building.for_elevators ids (<[k:=c']> m)).
Qed.

Lemma cycle_outputs_insert (ids : list Z) (m : gmap Z ElevatorCar.t) (k : Z)
    (c : ElevatorCar.t) :
  k ∉ ids → cycle_outputs ids (<[k := c]> m) = cycle_outputs ids m.
Proof.
  intros Hk. unfold cycle_outputs. f_equal. apply map_ext_in.
  intros j Hj. rewrite lookup_insert_ne; [done|].
  intros ->. by apply list_elem_of_In in Hj.
Qed.

(** The loop over the cars: each car listed gets one cycle of its own. *)
Lemma for_elevators_spec (ids : list Z) (m : gmap Z ElevatorCar.t) :
  NoDup ids →
  (∀ k, (Building.for_elevators ids m).1 !! k
        = if decide (k ∈ ids) then (λ c, (process_requests c).1) <$> m !! k
          else m !! k)
  ∧ (Building.for_elevators ids m).2 = cycle_outputs ids m.
Proof.
  revert m. induction ids as [|k0 ids IH]; intros m Hnd.
  - split; [|done]. intros k. rewrite decide_False; [done|apply not_elem_of_nil].
  - apply NoDup_cons in Hnd as [Hk0 Hnd]. rewrite for_elevators_cons.
    destruct (m !! k0) as [c|] eqn:Hc.
    + destruct (IH (<[k0 := (process_requests c).1]> m) Hnd) as [Hlook Hout].
      cbn [fst snd]. split.
      * intros k. rewrite Hlook.
        destruct (decide (k = k0)) as [->|Hne].
        -- rewrite (decide_False (P := k0 ∈ ids)) by done.
           rewrite (decide_True (P := k0 ∈ k0 :: ids)) by (apply elem_of_cons; by left).
           by rewrite lookup_insert_eq, Hc.
        -- rewrite lookup_insert_ne by done.
           destruct (decide (k ∈ ids)) as [Hin|Hin].
           ++ by rewrite (decide_True (P := k ∈ k0 :: ids))
                by (apply elem_of_cons; by right).
           ++ rewrite (decide_False (P := k ∈ k0 :: ids)); [done|].
              rewrite elem_of_cons. tauto.
      * rewrite Hout, cycle_outputs_insert by done.
        unfold cycle_outputs. cbn [map concat]. by rewrite Hc.
    + destruct (IH m Hnd) as [Hlook Hout]. split.
      * intros k. rewrite Hlook.
        destruct (decide (k = k0)) as [->|Hne].
        -- rewrite (decide_False (P := k0 ∈ ids)) by done.
           rewrite (decide_True (P := k0 ∈ k0 :: ids)) by (apply elem_of_cons; by left).
           by rewrite Hc.
        -- destruct (decide (k ∈ ids)) as [Hin|Hin].
           ++ by rewrite (decide_True (P := k ∈ k0 :: ids))
                by (apply elem_of_cons; by right).
           ++ rewrite (decide_False (P := k ∈ k0 :: ids)); [done|].
              rewrite elem_of_cons. tauto.
      * rewrite Hout. unfold cycle_outputs. cbn [map concat]. by rewrite Hc.
Qed.

End BuildingFacts.

Section BuildingExtras.

(** X16: a new building has exactly the cars with ids 0 to
    num_elevators - 1, each a new car, and exactly the floors numbered 0
    to num_floors - 1 with no button pressed; for a count that is zero or
    negative it has none. *)
Theorem new_building_layout (num_floors num_elevators : Z) (fixed_floors : list Z) :
  (∀ i : Z, Building.elevators (Building.init num_floors num_elevators fixed_floors) !! i
            = if decide (0 ≤ i < num_elevators)
              then Some (ElevatorCar.init i None) else None)
  ∧ (∀ n : nat, Building.floors (Building.init num_floors num_elevators fixed_floors) !! n
                = if decide (Z.of_nat n < num_floors)
                  then Some (Floor.init (Z.of_nat n)) else None)
  ∧ ids_ok (Building.init num_floors num_elevators fixed_floors).
Proof.
  split; [|split].
  - intros i. apply make_elevators_lookup.
  - intros n. unfold Building.init. cbn [Building.floors].
    rewrite range_from_zero.
    change (map Floor.init ?l) with (Floor.init <$> l).
    rewrite !list_lookup_fmap.
    case_decide as Hn.
    + rewrite lookup_seq_lt by lia. done.
    + rewrite lookup_seq_ge by lia. done.
  - split.
    + apply lt_sorted_NoDup, range_up_sorted.
    + intros k. unfold Building.init, Building.elevators, Building.controller.
      cbn [Building.ids Building.dispatch ElevatorController.elevators
           ElevatorController.init].
      rewrite elem_of_range_up, make_elevators_lookup.
      case_decide as Hk; split; intros Hx; try done; by destruct Hx.
Qed.

(** X17: in a building whose recorded ids are the keys of its dictionary,
    processing all requests gives every car one cycle of its own: each
    car ends as its own cycle leaves it, hence with an empty store, status
    Idle and direction Idle, the output is the cars' outputs one after
    the other in the order of the ids, and the ids, the policies and the
    floors stay as they were. *)
Theorem all_cars_get_their_cycle (b : Building.t) :
  ids_ok b →
  Building.elevators (Building.process_all_requests b).1
  = (λ c, (process_requests c).1) <$> Building.elevators b
  ∧ (Building.process_all_requests b).2
    = cycle_outputs (Building.ids b) (Building.elevators b)
  ∧ Building.ids (Building.process_all_requests b).1 = Building.ids b
  ∧ ElevatorController.strategies (Building.dispatch (Building.process_all_requests b).1)
    = ElevatorController.strategies (Building.dispatch b)
  ∧ Building.floors (Building.process_all_requests b).1 = Building.floors b
  ∧ (∀ k c, Building.elevators (Building.process_all_requests b).1 !! k = Some c →
            ElevatorCar.internal_requests c = []
            ∧ ElevatorCar.external_requests c = ∅
            ∧ ElevatorCar.status c = Status.IDLE
            ∧ ElevatorCar.direction c = Direction.IDLE).
Proof.
  intros [Hnd Hids].
  destruct (for_elevators_spec (Building.ids b) (Building.elevators b) Hnd)
    as [Hlook Hout].
  unfold Building.process_all_requests.
  destruct (Building.for_elevators (Building.ids b) (Building.elevators b))
    as [m' tr] eqn:Hrun.
  cbn [fst snd Building.elevators Building.ids Building.floors Building.dispatch
       ElevatorController.elevators ElevatorController.strategies] in *.
  assert (Hm : m' = (λ c, (process_requests c).1)
                    <$> ElevatorController.elevators (Building.dispatch b)).
  { apply map_eq. intros k. rewrite Hlook, lookup_fmap.
    case_decide as Hk; [done|].
    destruct (ElevatorController.elevators (Building.dispatch b) !! k) as [c|] eqn:Hc;
      [|done].
    exfalso. apply Hk, Hids. by eexists. }
  split; [exact Hm|]. split; [exact Hout|]. split; [done|]. split; [done|].
  split; [done|].
  intros k c Hc. rewrite Hm, lookup_fmap in Hc.
  destruct (ElevatorController.elevators (Building.dispatch b) !! k) as [c0|];
    [|discriminate Hc].
  injection Hc as <-.
  rewrite process_requests_look, look_process_requests_plan. done.
Qed.

(** X17, an instance: the building of the usage block; car 0 stops at 3,
    5 and 7, then car 1 at 4 and 8, then car 2 at 5 and 9. *)
Lemma all_cars_get_their_cycle_witness :
  ∃ b : Building.t,
    usage_building = Some b
    ∧ ids_ok b
    ∧ visits (Building.process_all_requests b).2 = [3; 5; 7; 4; 8; 5; 9]
    ∧ Building.elevators (Building.process_all_requests b).1
      = (λ c, (process_requests c).1) <$> Building.elevators b.
Proof.
  eexists. split; [vm_compute; reflexivity|].
  match goal with |- ids_ok ?b ∧ _ =>
    assert (Hok : ids_ok b)
      by (apply ids_ok_of_dom;
          [cbn [Building.ids]; repeat constructor; floors|reflexivity])
  end.
  split; [exact Hok|]. split; [reflexivity|].
  exact (proj1 (all_cars_get_their_cycle _ Hok)).
Defined.

(** X18: pressing a floor's external button always returns: the button of
    the given direction becomes pressed, no pressed button is released
    and for direction Idle no button changes, the floor keeps its number,
    and the controller is handed the call for this floor's number with
    the direction given, Idle included. *)
Theorem floor_button_press (floor : Floor.t) (ctrl : ElevatorController.t)
    (d : Direction.t) :
  ∃ (floor' : Floor.t) (ctrl' : ElevatorController.t),
    Floor.press_external_button floor ctrl d = Some (floor', ctrl')
    ∧ ElevatorController.handle_external_request ctrl (Floor.number floor) d = Some ctrl'
    ∧ Floor.number floor' = Floor.number floor
    ∧ ExternalButton.pressed (Floor.up_button floor')
      = ExternalButton.pressed (Floor.up_button floor) || bool_decide (d = Direction.UP)
    ∧ ExternalButton.pressed (Floor.down_button floor')
      = ExternalButton.pressed (Floor.down_button floor) || bool_decide (d = Direction.DOWN)
    ∧ (d = Direction.IDLE → floor' = floor).
Proof.
  destruct (for_strategies_frame (ElevatorController.strategies ctrl)
              (ElevatorController.elevators ctrl) (Floor.number floor) d)
    as (m' & Hrun & _).
  assert (Hh : ElevatorController.handle_external_request ctrl (Floor.number floor) d
               = Some (ElevatorController.mk m' (ElevatorController.strategies ctrl))).
  { unfold ElevatorController.handle_external_request. by rewrite Hrun. }
  unfold Floor.press_external_button. rewrite Hh. cbn [mbind option_bind].
  eexists _, _. split; [reflexivity|]. split; [reflexivity|].
  destruct d; cbn; rewrite ?orb_true_r, ?orb_false_r; done.
Qed.

(** X18, an instance: floor 4 of the usage block pressed with direction
    Idle stays as it was, and the call is handled. *)
Lemma floor_button_press_witness :
  ∃ (floor' : Floor.t) (ctrl' : ElevatorController.t),
    Floor.press_external_button (Floor.init 4) (Building.controller 3 [0; 5; 9])
      Direction.IDLE = Some (floor', ctrl')
    ∧ floor' = Floor.init 4
    ∧ ElevatorController.handle_external_request
        (Building.controller 3 [0; 5; 9]) 4 Direction.IDLE = Some ctrl'.
Proof.
  destruct (floor_button_press (Floor.init 4) (Building.controller 3 [0; 5; 9])
              Direction.IDLE) as (floor' & ctrl' & Hpress & Hrun & _ & _ & _ & Hidle).
  exists floor', ctrl'. split; [exact Hpress|]. split; [exact (Hidle eq_refl)|exact Hrun].
Defined.

End BuildingExtras.
